(** * PyCustomFile: a shallow embedding of [FileBase] and its path handling

    The development follows [PyCustomFile.py]: the string and [os.path]
    primitives the module calls, the exceptions it raises, the [FileBase]
    object with its watchdog, and the public methods as computations over an
    explicit machine state (the object, the outside world, and a history of
    attribute assignments). *)

From Stdlib Require Import List Ascii String ZArith Lia Bool.
Import ListNotations.

Open Scope Z_scope.

(** Python [str] values are sequences of characters. *)
Definition str := list ascii.

(** A literal of the source, e.g. [lit "name"]. *)
Definition lit (s : string) : str := list_ascii_of_string s.

(** ** The [str] methods used by the module and by [posixpath] *)
Module Str.

(** [s.rfind(c)] scanning from offset [i]: the highest index holding [c],
    or [-1]. *)
Fixpoint rfind_from (c : ascii) (s : str) (i : Z) : Z :=
  match s with
  | [] => -1
  | x :: t =>
      let r := rfind_from c t (i + 1) in
      if 0 <=? r then r else if Ascii.eqb x c then i else -1
  end.

Definition rfind (s : str) (c : ascii) : Z := rfind_from c s 0.

(** [s[:i]] and [s[i:]] for [0 <= i], the only indices the callers build. *)
Definition slice_to (s : str) (i : Z) : str := firstn (Z.to_nat i) s.
Definition slice_from (s : str) (i : Z) : str := skipn (Z.to_nat i) s.

(** [s[i]] for an index in range. *)
Definition index (s : str) (i : Z) : ascii := nth (Z.to_nat i) s zero.

(** [s.rstrip(c)]: drop the trailing run of [c]. *)
Fixpoint rstrip (s : str) (c : ascii) : str :=
  match s with
  | [] => []
  | x :: t =>
      match rstrip t c with
      | [] => if Ascii.eqb x c then [] else [x]
      | r => x :: r
      end
  end.

(** [c * n] *)
Definition times (c : ascii) (n : nat) : str := repeat c n.

Definition eqb (a b : str) : bool :=
  if list_eq_dec ascii_dec a b then true else false.

Definition startswith (s : str) (c : ascii) : bool :=
  match s with
  | x :: _ => Ascii.eqb x c
  | [] => false
  end.

Definition endswith (s : str) (c : ascii) : bool :=
  match rev s with
  | x :: _ => Ascii.eqb x c
  | [] => false
  end.

(** [s.split(sep)] for a one-character separator; never the empty list. *)
Fixpoint split (s : str) (sep : ascii) : list str :=
  match s with
  | [] => [[]]
  | c :: t =>
      if Ascii.eqb c sep then [] :: split t sep
      else match split t sep with
           | w :: ws => (c :: w) :: ws
           | [] => [[c]]
           end
  end.

(** Number of occurrences, [s.count(c)]. *)
Definition count (s : str) (c : ascii) : nat :=
  List.length (filter (fun x => Ascii.eqb x c) s).

End Str.

(** ** [os.path] on a POSIX host ([posixpath], [genericpath]) *)
Module PosixPath.

Definition sep : ascii := "/"%char.
Definition extsep : ascii := "."%char.

(** [dirname(p)]:
    [i = p.rfind('/') + 1; head = p[:i];
     if head and head != '/'*len(head): head = head.rstrip('/')] *)
Definition dirname (p : str) : str :=
  let i := Str.rfind p sep + 1 in
  let head := Str.slice_to p i in
  if negb (Str.eqb head []) && negb (Str.eqb head (Str.times sep (List.length head)))
  then Str.rstrip head sep
  else head.

(** [basename(p)]: [i = p.rfind('/') + 1; return p[i:]] *)
Definition basename (p : str) : str :=
  let i := Str.rfind p sep + 1 in
  Str.slice_from p i.

(** The [while filenameIndex < dotIndex] loop of [genericpath._splitext];
    [n] is the number of iterations left, [dotIndex - filenameIndex].
    [Some] is the [return] inside the loop, [None] the loop running out. *)
Fixpoint skip_leading_dots (n : nat) (p : str) (filenameIndex dotIndex : Z)
  : option (str * str) :=
  match n with
  | O => None
  | S k =>
      if negb (Ascii.eqb (Str.index p filenameIndex) extsep)
      then Some (Str.slice_to p dotIndex, Str.slice_from p dotIndex)
      else skip_leading_dots k p (filenameIndex + 1) dotIndex
  end.

(** [splitext(p)], with [altsep = None] as on POSIX. *)
Definition splitext (p : str) : str * str :=
  let sepIndex := Str.rfind p sep in
  let dotIndex := Str.rfind p extsep in
  if sepIndex <? dotIndex then
    let filenameIndex := sepIndex + 1 in
    match skip_leading_dots (Z.to_nat (dotIndex - filenameIndex)) p filenameIndex dotIndex with
    | Some r => r
    | None => (p, [])
    end
  else (p, []).

(** [join(a, b)] with one component after [a]. *)
Definition join (a b : str) : str :=
  if Str.startswith b sep then b
  else if Str.eqb a [] || Str.endswith a sep then a ++ b
  else a ++ sep :: b.

End PosixPath.


(** ** Values, exceptions and the outside world *)

(** The Python objects a file carries as its data. [PyObject] stands for any
    other object, identified by its address. *)
Inductive pyobj :=
| PyNone
| PyStr (s : str)
| PyInt (n : Z)
| PyObject (addr : nat).

Definition bytes := list Byte.byte.

(** [pickle]: [dump] may refuse an object, [load] may refuse a byte stream. *)
Record Pickle := {
  dump : pyobj -> option bytes;
  load : bytes -> option pyobj
}.

Inductive exn :=
| TypeError_arity (func : string) (takes given : nat)
| TypeError_operand (op : string)
| NameError (name : string)
| AttributeError (attr : string)
| IOError (path : str)
| PicklingError
| UnpicklingError
| NotEnoughInfoOnFile (msg : str)
| FileDeleted (msg : str).

Inductive result (A : Type) :=
| Ok (a : A)
| Raise (e : exn).
Arguments Ok {A} a.
Arguments Raise {A} e.

Definition is_ok {A} (r : result A) : bool :=
  match r with Ok _ => true | Raise _ => false end.

(** The handler object [FileBaseWatchDog(self)]: its [file] attribute is the
    one [FileBase] object of the machine. *)
Inductive FileBaseWatchDog := HandlerOfSelf.

(** A [watchdog.observers.Observer]: the watches scheduled on it and whether
    its thread has been started. Nothing in the module stops an observer. *)
Record Observer := {
  obs_id : nat;
  obs_watches : list (FileBaseWatchDog * str * bool);
  obs_started : bool
}.

Inductive io_op :=
| IoExists (path : str)
| IoOpen (path : str) (mode : string)
| IoWrite (path : str) (b : bytes)
| IoRead (path : str).

(** What lies outside the object: regular files and their contents, whether
    the host lets a path be opened for writing, every observer created so far
    (newest first), and the file operations performed (newest first). *)
Record World := {
  files : str -> option bytes;
  writable : str -> bool;
  observers : list Observer;
  io_log : list io_op
}.

(** Filesystem events of [watchdog.events]. *)
Inductive event :=
| Moved (src dest : str)
| Deleted (src : str)
| Modified (src : str).

Definition src_path (ev : event) : str :=
  match ev with
  | Moved s _ => s
  | Deleted s => s
  | Modified s => s
  end.

Definition dest_path (ev : event) : option str :=
  match ev with
  | Moved _ d => Some d
  | _ => None
  end.

(** ** The [FileBase] object *)

Record FileBase := {
  unsavedChanges : bool;
  watchdog : option nat;
  watchdogHandler : option FileBaseWatchDog;
  name : option str;
  extension : option str;
  directory : option str;
  data : pyobj
}.

Definition set_unsavedChanges (v : bool) (h : FileBase) : FileBase :=
  {| unsavedChanges := v; watchdog := watchdog h; watchdogHandler := watchdogHandler h;
     name := name h; extension := extension h; directory := directory h; data := data h |}.
Definition set_watchdog (v : option nat) (h : FileBase) : FileBase :=
  {| unsavedChanges := unsavedChanges h; watchdog := v; watchdogHandler := watchdogHandler h;
     name := name h; extension := extension h; directory := directory h; data := data h |}.
Definition set_watchdogHandler (v : option FileBaseWatchDog) (h : FileBase) : FileBase :=
  {| unsavedChanges := unsavedChanges h; watchdog := watchdog h; watchdogHandler := v;
     name := name h; extension := extension h; directory := directory h; data := data h |}.
Definition set_name (v : option str) (h : FileBase) : FileBase :=
  {| unsavedChanges := unsavedChanges h; watchdog := watchdog h; watchdogHandler := watchdogHandler h;
     name := v; extension := extension h; directory := directory h; data := data h |}.
Definition set_extension (v : option str) (h : FileBase) : FileBase :=
  {| unsavedChanges := unsavedChanges h; watchdog := watchdog h; watchdogHandler := watchdogHandler h;
     name := name h; extension := v; directory := directory h; data := data h |}.
Definition set_directory (v : option str) (h : FileBase) : FileBase :=
  {| unsavedChanges := unsavedChanges h; watchdog := watchdog h; watchdogHandler := watchdogHandler h;
     name := name h; extension := extension h; directory := v; data := data h |}.
Definition set_data (v : pyobj) (h : FileBase) : FileBase :=
  {| unsavedChanges := unsavedChanges h; watchdog := watchdog h; watchdogHandler := watchdogHandler h;
     name := name h; extension := extension h; directory := directory h; data := v |}.

(** The object as allocated, before [__init__] has assigned anything. *)
Definition blank : FileBase :=
  {| unsavedChanges := false; watchdog := None; watchdogHandler := None;
     name := None; extension := None; directory := None; data := PyNone |}.

(** ** Machine state and the computation monad *)

(** [history] holds the object as it was after each attribute assignment,
    newest first: what an observer of the object sees change by change. *)
Record Machine := {
  self : FileBase;
  world : World;
  history : list FileBase
}.

(** A computation runs on the machine and ends normally or by raising; the
    machine it leaves is the one at the return or at the [raise]. *)
Definition M (A : Type) : Type := Machine -> result A * Machine.

Definition ret {A} (a : A) : M A := fun m => (Ok a, m).
Definition raise {A} (e : exn) : M A := fun m => (Raise e, m).
Definition bind {A B} (c : M A) (k : A -> M B) : M B :=
  fun m => match c m with
           | (Ok a, m') => k a m'
           | (Raise e, m') => (Raise e, m')
           end.

Notation "x <- c ;; k" := (bind c (fun x => k))
  (at level 61, c at next level, right associativity).
Notation "c ;; k" := (bind c (fun _ => k))
  (at level 61, right associativity).

Definition get_self : M FileBase := fun m => (Ok (self m), m).
Definition get_world : M World := fun m => (Ok (world m), m).

(** [self.attr = v] *)
Definition setattr (upd : FileBase -> FileBase) : M unit :=
  fun m => let h := upd (self m) in
           (Ok tt, {| self := h; world := world m; history := h :: history m |}).

Definition set_world (w : World) : M unit :=
  fun m => (Ok tt, {| self := self m; world := w; history := history m |}).

Definition log (o : io_op) (w : World) : World :=
  {| files := files w; writable := writable w; observers := observers w;
     io_log := o :: io_log w |}.

Definition put_file (path : str) (b : bytes) (w : World) : World :=
  {| files := fun q => if Str.eqb q path then Some b else files w q;
     writable := writable w; observers := observers w; io_log := io_log w |}.

Definition set_observers (l : list Observer) (w : World) : World :=
  {| files := files w; writable := writable w; observers := l; io_log := io_log w |}.

(** [os.path.exists(path)] *)
Definition os_path_exists (path : str) : M bool :=
  w <- get_world ;;
  set_world (log (IoExists path) w) ;;
  ret (match files w path with Some _ => true | None => false end).

(** [open(path, 'w+b')]: refused by the host, or the file is created or
    truncated. *)
Definition open_wb (path : str) : M unit :=
  w <- get_world ;;
  set_world (log (IoOpen path "w+b") w) ;;
  if writable w path
  then w <- get_world ;; set_world (put_file path [] w)
  else raise (IOError path).

(** Writing [b] through the file object opened on [path]. *)
Definition file_write (path : str) (b : bytes) : M unit :=
  w <- get_world ;;
  set_world (log (IoWrite path b) (put_file path b w)).

(** [open(path, 'r+b')] and reading the whole stream: the file must exist
    and be open to updates. *)
Definition open_rb_read (path : str) : M bytes :=
  w <- get_world ;;
  set_world (log (IoOpen path "r+b") w) ;;
  match files w path with
  | Some b =>
      if writable w path
      then w <- get_world ;; set_world (log (IoRead path) w) ;; ret b
      else raise (IOError path)
  | None => raise (IOError path)
  end.

(** [watchdog.observers.Observer()]: a new observer, not yet started. *)
Definition Observer_new : M nat :=
  w <- get_world ;;
  let id := List.length (observers w) in
  set_world (set_observers ({| obs_id := id; obs_watches := []; obs_started := false |}
                              :: observers w) w) ;;
  ret id.

Definition update_observer (id : nat) (f : Observer -> Observer) (w : World) : World :=
  set_observers (map (fun o => if Nat.eqb (obs_id o) id then f o else o) (observers w)) w.

(** [observer.schedule(handler, path=..., recursive=...)] *)
Definition Observer_schedule (id : nat) (handler : FileBaseWatchDog) (path : str)
    (recursive : bool) : M unit :=
  w <- get_world ;;
  set_world (update_observer id
    (fun o => {| obs_id := obs_id o;
                 obs_watches := (handler, path, recursive) :: obs_watches o;
                 obs_started := obs_started o |}) w).

(** [observer.start()] *)
Definition Observer_start (id : nat) : M unit :=
  w <- get_world ;;
  set_world (update_observer id
    (fun o => {| obs_id := obs_id o; obs_watches := obs_watches o; obs_started := true |}) w).

(** The subscriptions that are live: observers whose thread runs. *)
Definition live (w : World) : list Observer := filter obs_started (observers w).

(** ** Calling a Python function *)

(** A positional argument: the object itself or a string. *)
Inductive pyval :=
| VSelf
| VStr (s : str).

Definition env := list (string * pyval).

Fixpoint lookup (x : string) (e : env) : option pyval :=
  match e with
  | [] => None
  | (y, v) :: t => if String.eqb x y then Some v else lookup x t
  end.

(** [def func_name(params): body]. The body runs in the scope made of its
    parameters; the module has no global called [self]. *)
Record pyfunc (A : Type) := {
  func_name : string;
  params : list string;
  body : env -> M A
}.
Arguments func_name {A} p.
Arguments params {A} p.
Arguments body {A} p.

(** A call binds the arguments to the parameters one for one, and raises
    [TypeError] when their numbers differ. *)
Definition call {A} (f : pyfunc A) (args : list pyval) : M A :=
  if Nat.eqb (List.length args) (List.length (params f))
  then body f (combine (params f) args)
  else raise (TypeError_arity (func_name f) (List.length (params f)) (List.length args)).

(** Reading the variable [x] that is expected to hold the object. *)
Definition load_object (x : string) (e : env) : M FileBase :=
  match lookup x e with
  | Some VSelf => get_self
  | Some (VStr _) => raise (AttributeError "name")
  | None => raise (NameError x)
  end.

(** ["%s" % v] *)
Definition format_s (v : option pyval) : str :=
  match v with
  | Some (VStr s) => s
  | Some VSelf => lit "<FileBase object>"
  | None => lit "None"
  end.

(** ["%s" % v] for an attribute that is a string or [None]. *)
Definition format_attr (v : option str) : str :=
  match v with
  | Some s => s
  | None => lit "None"
  end.

Definition is_None {A} (v : option A) : bool :=
  match v with None => true | Some _ => false end.

(** ** The methods of [FileBase] *)

(** The statements of [_throwNotEnoughInfo] after [self] has been read: the
    error string built from what is missing. *)
Definition notEnoughInfo_errorString (h : FileBase) (itemThatFailed : str) : str :=
  let errorString := lit "The file " in
  let errors := 0 in
  let '(errorString, errors) :=
    if is_None (name h) then (errorString ++ lit "name", errors + 1)
    else (errorString, errors) in
  let '(errorString, errors) :=
    if is_None (extension h)
    then (errorString ++ (if 0 <? errors then lit " and extension" else lit "extension"),
          errors + 1)
    else (errorString, errors) in
  let '(errorString, errors) :=
    if is_None (directory h)
    then (errorString ++ (if 0 <? errors then lit " and directory" else lit "directory"),
          errors + 1)
    else (errorString, errors) in
  errorString ++ lit " to intialise the " ++ itemThatFailed.

(** [def _throwNotEnoughInfo(itemThatFailed):] one parameter, and a body
    that reads [self]. *)
Definition _throwNotEnoughInfo : pyfunc unit :=
  {| func_name := "_throwNotEnoughInfo";
     params := ["itemThatFailed"%string];
     body := fun e =>
       h <- load_object "self" e ;;
       raise (NotEnoughInfoOnFile
                (notEnoughInfo_errorString h (format_s (lookup "itemThatFailed" e)))) |}.

(** [self.name is not None and self.extension is not None and
     self.directory is not None] *)
Definition identity_set (h : FileBase) : bool :=
  negb (is_None (name h)) && negb (is_None (extension h)) && negb (is_None (directory h)).

Definition _initWatchdog : M unit :=
  h <- get_self ;;
  match name h, extension h, directory h with
  | Some _, Some _, Some d =>
      o <- Observer_new ;;
      setattr (set_watchdog (Some o)) ;;
      setattr (set_watchdogHandler (Some HandlerOfSelf)) ;;
      Observer_schedule o HandlerOfSelf d false ;;
      Observer_start o
  | _, _, _ =>
      call _throwNotEnoughInfo [VSelf; VStr (lit "watchdog")]
  end.

Definition _getInfoFromPath (path : str) : M unit :=
  setattr (set_directory (Some (PosixPath.dirname path))) ;;
  let fileName := PosixPath.basename path in
  setattr (set_name (Some (nth 0 (Str.split fileName "."%char) []))) ;;
  setattr (set_extension (Some (snd (PosixPath.splitext path)))).

Definition _updateFileLocation (path : str) : M unit :=
  _getInfoFromPath path ;;
  _initWatchdog.

Definition _changesMade : M unit :=
  setattr (set_unsavedChanges true).

(** The decorator: [trackChange] calls [_changesMade] on the object, then the
    method it wraps. *)
Definition makesChanges {A B} (func : A -> M B) : A -> M B :=
  fun args =>
    _changesMade ;;
    func args.

Definition hasUnsavedChanges : M bool :=
  h <- get_self ;;
  ret (unsavedChanges h).

(** [os.path.join(self.directory, self.name + self.extension)] *)
Definition getAbsolutePath : M str :=
  h <- get_self ;;
  match name h, extension h with
  | Some n, Some e =>
      match directory h with
      | Some d => ret (PosixPath.join d (n ++ e))
      | None =>
          if Str.startswith (n ++ e) PosixPath.sep then ret (n ++ e)
          else raise (AttributeError "endswith")
      end
  | _, _ => raise (TypeError_operand "+")
  end.

Definition getData : M pyobj :=
  h <- get_self ;;
  ret (data h).

Definition setData : pyobj -> M unit :=
  makesChanges (fun data => setattr (set_data data)).

Section Persistence.

Variable pickle : Pickle.

Definition save : M unit :=
  h <- get_self ;;
  if identity_set h then
    path <- getAbsolutePath ;;
    open_wb path ;;
    h <- get_self ;;
    match dump pickle (data h) with
    | Some b =>
        file_write path b ;;
        setattr (set_unsavedChanges false)
    | None => raise PicklingError
    end
  else
    call _throwNotEnoughInfo [VSelf; VStr (lit "save")].

Definition open (path : str) : M unit :=
  _getInfoFromPath path ;;
  b <- open_rb_read path ;;
  match load pickle b with
  | Some v =>
      setattr (set_data v) ;;
      _initWatchdog
  | None => raise UnpicklingError
  end.

Definition saveAs (path : str) : M unit :=
  _getInfoFromPath path ;;
  save ;;
  _initWatchdog.

Definition __init__ (path : option str) : M unit :=
  setattr (set_unsavedChanges false) ;;
  setattr (set_watchdog None) ;;
  setattr (set_name None) ;;
  setattr (set_extension None) ;;
  setattr (set_directory None) ;;
  setattr (set_data PyNone) ;;
  match path with
  | Some path =>
      found <- os_path_exists path ;;
      if found then open path else saveAs path
  | None => ret tt
  end.

End Persistence.

Definition recoverFromDelete (newPath : str) : M unit :=
  _updateFileLocation newPath.

(** *** Event handlers *)

Definition evt_OnFileModified (ev : event) : M unit :=
  _updateFileLocation (src_path ev).

Definition evt_OnFileDeleted (ev : event) : M unit :=
  h <- get_self ;;
  match name h, extension h with
  | Some n, Some e =>
      raise (FileDeleted (lit "The file " ++ (n ++ e)
                            ++ lit " was either deleted or moved from "
                            ++ format_attr (directory h)))
  | _, _ => raise (TypeError_operand "+")
  end.

Definition evt_OnFileMoved (ev : event) : M unit :=
  match dest_path ev with
  | Some d => _updateFileLocation d
  | None => raise (AttributeError "dest_path")
  end.

(** *** [FileBaseWatchDog]: the filter in front of each handler *)

Definition on_moved (ev : event) : M unit :=
  p <- getAbsolutePath ;;
  if Str.eqb (src_path ev) p then evt_OnFileMoved ev else ret tt.

Definition on_deleted (ev : event) : M unit :=
  p <- getAbsolutePath ;;
  if Str.eqb (src_path ev) p then evt_OnFileDeleted ev else ret tt.

Definition on_modified (ev : event) : M unit :=
  p <- getAbsolutePath ;;
  if Str.eqb (src_path ev) p then evt_OnFileModified ev else ret tt.

(** The observer thread hands an event to the handler method of its kind. *)
Definition dispatch (ev : event) : M unit :=
  match ev with
  | Moved _ _ => on_moved ev
  | Deleted _ => on_deleted ev
  | Modified _ => on_modified ev
  end.

(** ** Sequences of operations on one handle *)

(** What a caller, or an observer thread, can do to the object. *)
Inductive op :=
| Do_hasUnsavedChanges
| Do_open (path : str)
| Do_save
| Do_saveAs (path : str)
| Do_getAbsolutePath
| Do_setData (v : pyobj)
| Do_getData
| Do_recoverFromDelete (newPath : str)
| Do_event (ev : event).

(** An event reaches the handler only through a started observer. *)
Definition deliver (ev : event) : M unit :=
  w <- get_world ;;
  match live w with
  | [] => ret tt
  | _ :: _ => dispatch ev
  end.

Section Runs.

Variable pickle : Pickle.

Definition exec (o : op) : M unit :=
  match o with
  | Do_hasUnsavedChanges => hasUnsavedChanges ;; ret tt
  | Do_open path => open pickle path
  | Do_save => save pickle
  | Do_saveAs path => saveAs pickle path
  | Do_getAbsolutePath => getAbsolutePath ;; ret tt
  | Do_setData v => setData v
  | Do_getData => getData ;; ret tt
  | Do_recoverFromDelete newPath => recoverFromDelete newPath
  | Do_event ev => deliver ev
  end.

(** Run the operations in order; an exception is caught by the caller, who
    goes on with the object as the exception left it. The outcome of each
    operation is recorded, oldest first. *)
Fixpoint run (ops : list op) (m : Machine) : list (op * bool) * Machine :=
  match ops with
  | [] => ([], m)
  | o :: rest =>
      let '(r, m') := exec o m in
      let '(outs, m'') := run rest m' in
      ((o, is_ok r) :: outs, m'')
  end.

(** [FileBase(path)] in the world [w]. *)
Definition construct (path : option str) (w : World) : result unit * Machine :=
  __init__ pickle path {| self := blank; world := w; history := [] |}.

(** The states a handle goes through: built in a world that holds no
    observer yet, then operated on. *)
Inductive reachable : Machine -> Prop :=
| reach_construct : forall path w,
    observers w = [] -> reachable (snd (construct path w))
| reach_exec : forall o m,
    reachable m -> reachable (snd (exec o m)).

End Runs.





(** The attribute assignments a computation made, oldest first. *)
Definition assignments {A} (c : M A) (m : Machine) : list FileBase :=
  let m' := snd (c m) in
  rev (firstn (List.length (history m') - List.length (history m)) (history m')).

(** Deriving the identity from a path and reading the absolute path back. *)
Definition roundtrip (path : str) : M str :=
  _getInfoFromPath path ;;
  getAbsolutePath.

(** *** Sample collaborators for the examples *)

(** A stand-in serialiser: [None] and strings only. *)
Definition sample_pickle : Pickle :=
  {| dump := fun v =>
       match v with
       | PyNone => Some []
       | PyStr s => Some (Byte.x01 :: map byte_of_ascii s)
       | _ => None
       end;
     load := fun b =>
       match b with
       | [] => Some PyNone
       | Byte.x01 :: t => Some (PyStr (map ascii_of_byte t))
       | _ => None
       end |}.

(** An empty filesystem on which every path may be written. *)
Definition empty_world : World :=
  {| files := fun _ => None; writable := fun _ => true; observers := []; io_log := [] |}.

(** A filesystem that refuses every write. *)
Definition readonly_world : World :=
  {| files := fun _ => None; writable := fun _ => false; observers := []; io_log := [] |}.

(** A filesystem holding one file, [/tmp/x/Foo.bar], with the string [Y]
    pickled in it. *)
Definition foo_world : World :=
  {| files := fun q => if Str.eqb q (lit "/tmp/x/Foo.bar")
                       then Some (Byte.x01 :: map byte_of_ascii (lit "Y")) else None;
     writable := fun _ => true; observers := []; io_log := [] |}.

(** Whether a stretch of a file name consists of dots only (also when it
    is empty): the leading dots [splitext] does not count as an extension. *)
Definition all_dots (s : str) : bool :=
  forallb (fun x => Ascii.eqb x PosixPath.extsep) s.

(** [FileBase()] on the empty filesystem. *)
Definition new_handle : Machine :=
  snd (construct sample_pickle None empty_world).

(** A computation that keeps a property of the machine, however it ends. *)
Definition preserves {A} (P : Machine -> Prop) (c : M A) : Prop :=
  forall m, P m -> P (snd (c m)).



(** The observer [_initWatchdog] creates and starts for the directory [d]
    when [n] observers exist already. *)
Definition new_subscription (n : nat) (d : str) : Observer :=
  {| obs_id := n; obs_watches := [(HandlerOfSelf, d, false)]; obs_started := true |}.


(** The identity that [_getInfoFromPath path] assigns. *)
Definition derived_from (path : str) (h : FileBase) : Prop :=
  name h = Some (nth 0 (Str.split (PosixPath.basename path) PosixPath.extsep) [])
  /\ extension h = Some (snd (PosixPath.splitext path))
  /\ directory h = Some (PosixPath.dirname path).

(** The identity as [__init__] leaves it when no path is given. *)
Definition identity_unset (h : FileBase) : Prop :=
  name h = None /\ extension h = None /\ directory h = None.

(** The identity is unset and nothing watches yet, or it was derived, whole,
    from some path. *)
Definition identity_inv (m : Machine) : Prop :=
  (identity_unset (self m) /\ observers (world m) = [])
  \/ exists path, derived_from path (self m).

(** A computation that raises nothing but the exceptions [allowed]. *)
Definition raises_only {A} (allowed : exn -> bool) (c : M A) : Prop :=
  forall m e, fst (c m) = Raise e -> allowed e = true.

(** Every exception but the two the module declares. *)
Definition foreign_error (e : exn) : bool :=
  match e with
  | NotEnoughInfoOnFile _ => false
  | FileDeleted _ => false
  | _ => true
  end.

(** Every exception but [NotEnoughInfoOnFile]. *)
Definition not_NotEnoughInfoOnFile (e : exn) : bool :=
  match e with
  | NotEnoughInfoOnFile _ => false
  | _ => true
  end.

(** A string made of slashes only (the empty one included), the test
    [head == '/'*len(head)] of [dirname]. *)
Definition all_slashes (s : str) : bool :=
  Str.eqb s (Str.times PosixPath.sep (List.length s)).



(** * Properties *)

Example dirname_ex : PosixPath.dirname (lit "/a/b/report.v2.csv") = lit "/a/b".
Proof. reflexivity. Qed.
Example dirname_root : PosixPath.dirname (lit "/foo") = lit "/".
Proof. reflexivity. Qed.
Example dirname_slashes : PosixPath.dirname (lit "/a//b.c") = lit "/a".
Proof. reflexivity. Qed.
Example basename_ex : PosixPath.basename (lit "/a/b/report.v2.csv") = lit "report.v2.csv".
Proof. reflexivity. Qed.
Example splitext_ex : PosixPath.splitext (lit "/a/b/report.v2.csv") = (lit "/a/b/report.v2", lit ".csv").
Proof. reflexivity. Qed.
Example splitext_dotfile : PosixPath.splitext (lit "/a/.bashrc") = (lit "/a/.bashrc", lit "").
Proof. reflexivity. Qed.
Example splitext_dotdir : PosixPath.splitext (lit "/a.b/c") = (lit "/a.b/c", lit "").
Proof. reflexivity. Qed.
Example split_ex : Str.split (lit "a.b.tar.gz") "."%char = [lit "a"; lit "b"; lit "tar"; lit "gz"].
Proof. reflexivity. Qed.
Example join_ex : PosixPath.join (lit "/a/b") (lit "report.csv") = lit "/a/b/report.csv".
Proof. reflexivity. Qed.

(** ** Strings *)

Section StrFacts.

Variable c : ascii.

Lemma rfind_from_absent (s : str) (i : Z) :
  ~ In c s -> Str.rfind_from c s i = -1.
Proof.
  revert i; induction s as [|x t IH]; intros i Hn; simpl; [reflexivity|].
  rewrite IH by (intro; apply Hn; now right).
  simpl. destruct (Ascii.eqb_spec x c) as [->|]; [|reflexivity].
  exfalso; apply Hn; now left.
Qed.

Lemma rfind_from_last (a b : str) (i : Z) :
  0 <= i -> ~ In c b ->
  Str.rfind_from c (a ++ c :: b) i = i + Z.of_nat (List.length a).
Proof.
  revert i; induction a as [|x a IH]; intros i Hi Hb; simpl Str.rfind_from.
  - rewrite rfind_from_absent by assumption. simpl.
    rewrite Ascii.eqb_refl. simpl; lia.
  - rewrite IH by (assumption || lia).
    destruct (Z.leb_spec 0 (i + 1 + Z.of_nat (List.length a))); simpl List.length; lia.
Qed.

Lemma rfind_last (a b : str) :
  ~ In c b -> Str.rfind (a ++ c :: b) c = Z.of_nat (List.length a).
Proof. intros; unfold Str.rfind; rewrite rfind_from_last; auto; lia. Qed.

Lemma rfind_absent (s : str) : ~ In c s -> Str.rfind s c = -1.
Proof. apply rfind_from_absent. Qed.

(** Cutting a string at the last occurrence of [c]. *)
Lemma split_at_last (s : str) :
  In c s -> exists a b, s = a ++ c :: b /\ ~ In c b.
Proof.
  induction s as [|x t IH]; intros Hin; [destruct Hin|].
  destruct (in_dec ascii_dec c t) as [Ht|Ht].
  - destruct (IH Ht) as (a & b & -> & Hb). now exists (x :: a), b.
  - destruct Hin as [->|Hin]; [|contradiction]. now exists [], t.
Qed.

(** Cutting a string at the first occurrence of [c]. *)
Lemma split_at_first (s : str) :
  In c s -> exists a b, s = a ++ c :: b /\ ~ In c a.
Proof.
  induction s as [|x t IH]; intros Hin; [destruct Hin|].
  destruct (ascii_dec x c) as [->|Hx].
  - exists [], t; auto.
  - destruct Hin as [Hin|Hin]; [contradiction|].
    destruct (IH Hin) as (a & b & -> & Ha). exists (x :: a), b. split; [reflexivity|].
    intros [E|E]; auto.
Qed.

Lemma first_cut_unique (a b a' b' : str) :
  a ++ c :: b = a' ++ c :: b' -> ~ In c a -> ~ In c a' -> a = a' /\ b = b'.
Proof.
  revert a'; induction a as [|x a IH]; intros [|y a'] E Ha Ha'; simpl in *.
  - now inversion E.
  - inversion E; subst. exfalso; apply Ha'; now left.
  - inversion E; subst. exfalso; apply Ha; now left.
  - inversion E; subst. destruct (IH a' H1) as [-> ->]; auto.
Qed.

Lemma last_cut_unique (a b a' b' : str) :
  a ++ c :: b = a' ++ c :: b' -> ~ In c b -> ~ In c b' -> a = a' /\ b = b'.
Proof.
  revert a'; induction a as [|x a IH]; intros [|y a'] E Hb Hb'; simpl in *.
  - now inversion E.
  - inversion E; subst. exfalso; apply Hb. apply in_or_app; right; now left.
  - inversion E; subst. exfalso; apply Hb'. apply in_or_app; right; now left.
  - inversion E; subst. destruct (IH a' H1) as [-> ->]; auto.
Qed.

Lemma split_no_sep (s : str) : ~ In c s -> Str.split s c = [s].
Proof.
  induction s as [|x t IH]; intros Hn; simpl; [reflexivity|].
  destruct (Ascii.eqb_spec x c) as [->|]; [exfalso; apply Hn; now left|].
  rewrite IH; [reflexivity|]. intro; apply Hn; now right.
Qed.

(** [s.split(c)[0]] is what stands before the first [c]. *)
Lemma split_first_piece (a b : str) :
  ~ In c a -> nth 0 (Str.split (a ++ c :: b) c) [] = a.
Proof.
  induction a as [|x a IH]; intros Ha; simpl.
  - now rewrite Ascii.eqb_refl.
  - destruct (Ascii.eqb_spec x c) as [->|]; [exfalso; apply Ha; now left|].
    assert (Ha' : ~ In c a) by (intro; apply Ha; now right).
    specialize (IH Ha').
    destruct (Str.split (a ++ c :: b) c) as [|w ws]; simpl in *; now subst.
Qed.

Lemma count_app (a b : str) :
  Str.count (a ++ b) c = (Str.count a c + Str.count b c)%nat.
Proof. unfold Str.count. now rewrite filter_app, length_app. Qed.

Lemma count_cons_same (s : str) : Str.count (c :: s) c = S (Str.count s c).
Proof. unfold Str.count; simpl. now rewrite Ascii.eqb_refl. Qed.

Lemma count_absent (s : str) : ~ In c s -> Str.count s c = 0%nat.
Proof.
  induction s as [|x t IH]; intros Hn; [reflexivity|].
  unfold Str.count in *; simpl.
  destruct (Ascii.eqb_spec x c) as [->|]; [exfalso; apply Hn; now left|].
  apply IH. intro; apply Hn; now right.
Qed.

Lemma count_zero_absent (s : str) : Str.count s c = 0%nat -> ~ In c s.
Proof.
  intros Hc Hin. destruct (split_at_last s Hin) as (a & b & -> & _).
  rewrite count_app, count_cons_same in Hc. lia.
Qed.

Lemma endswith_inv (s : str) :
  Str.endswith s c = true -> exists a, s = a ++ [c].
Proof.
  unfold Str.endswith. destruct (rev s) as [|x r] eqn:E; [discriminate|].
  intros Hx. apply Ascii.eqb_eq in Hx; subst x.
  exists (rev r). rewrite <- (rev_involutive s), E. reflexivity.
Qed.

Lemma startswith_absent (s : str) : ~ In c s -> Str.startswith s c = false.
Proof.
  destruct s as [|x t]; intros Hn; simpl; [reflexivity|].
  destruct (Ascii.eqb_spec x c) as [->|]; [exfalso; apply Hn; now left|reflexivity].
Qed.

End StrFacts.

Lemma slice_to_app (a b : str) :
  Str.slice_to (a ++ b) (Z.of_nat (List.length a)) = a.
Proof.
  unfold Str.slice_to. rewrite Nat2Z.id, firstn_app, firstn_all, Nat.sub_diag.
  simpl. apply app_nil_r.
Qed.

Lemma slice_from_app (a b : str) :
  Str.slice_from (a ++ b) (Z.of_nat (List.length a)) = b.
Proof.
  unfold Str.slice_from. rewrite Nat2Z.id, skipn_app, skipn_all, Nat.sub_diag.
  reflexivity.
Qed.

Lemma index_app (a b : str) (x : ascii) :
  Str.index (a ++ x :: b) (Z.of_nat (List.length a)) = x.
Proof. unfold Str.index. rewrite Nat2Z.id. apply nth_middle. Qed.

(** ** Paths *)

Import PosixPath.

Lemma basename_no_sep (p : str) : ~ In sep p -> basename p = p.
Proof. intros H. unfold basename. now rewrite rfind_absent. Qed.

Lemma dirname_no_sep (p : str) : ~ In sep p -> dirname p = [].
Proof. intros H. unfold dirname. now rewrite rfind_absent. Qed.

Lemma basename_cut (a f : str) : ~ In sep f -> basename (a ++ sep :: f) = f.
Proof.
  intros H. unfold basename. rewrite rfind_last by assumption.
  replace (a ++ sep :: f) with ((a ++ [sep]) ++ f) by now rewrite <- app_assoc.
  replace (Z.of_nat (List.length a) + 1) with (Z.of_nat (List.length (a ++ [sep])))
    by (rewrite length_app; simpl; lia).
  apply slice_from_app.
Qed.

(** Every path is a directory part, empty or ending in a slash, followed by
    a file name without slash. *)
Lemma path_cut (p : str) :
  exists d f, p = d ++ f /\ ~ In sep f /\ basename p = f
              /\ Str.rfind p sep = Z.of_nat (List.length d) - 1
              /\ (d = [] \/ exists a, d = a ++ [sep]).
Proof.
  destruct (in_dec ascii_dec sep p) as [Hin|Hn].
  - destruct (split_at_last sep p Hin) as (a & f & -> & Hf).
    exists (a ++ [sep]), f. rewrite <- app_assoc. repeat split; auto.
    + now apply basename_cut.
    + rewrite rfind_last by assumption. rewrite length_app; simpl; lia.
    + right; now exists a.
  - exists [], p. repeat split; auto.
    + now apply basename_no_sep.
    + now rewrite rfind_absent.
Qed.

Lemma skip_leading_dots_spec (pre d rest : str) (dotIndex : Z) :
  skip_leading_dots (List.length pre) (d ++ pre ++ rest)
                    (Z.of_nat (List.length d)) dotIndex
  = if all_dots pre then None
    else Some (Str.slice_to (d ++ pre ++ rest) dotIndex,
               Str.slice_from (d ++ pre ++ rest) dotIndex).
Proof.
  revert d; induction pre as [|x pre IH]; intros d; [reflexivity|].
  simpl List.length. simpl skip_leading_dots.
  change ((x :: pre) ++ rest) with (x :: pre ++ rest).
  rewrite index_app. simpl all_dots.
  destruct (Ascii.eqb x extsep); simpl; [|reflexivity].
  replace (d ++ x :: pre ++ rest) with ((d ++ [x]) ++ pre ++ rest)
    by now rewrite <- app_assoc.
  replace (Z.of_nat (List.length d) + 1) with (Z.of_nat (List.length (d ++ [x])))
    by (rewrite length_app; simpl; lia).
  apply IH.
Qed.

Lemma rfind_bound (c : ascii) (s : str) : Str.rfind s c <= Z.of_nat (List.length s) - 1.
Proof.
  destruct (in_dec ascii_dec c s) as [Hin|Hn].
  - destruct (split_at_last c s Hin) as (a & b & -> & Hb).
    rewrite rfind_last by assumption. rewrite length_app; simpl List.length; lia.
  - rewrite rfind_absent by assumption. lia.
Qed.

Lemma rfind_app_absent (c : ascii) (a b : str) :
  ~ In c b -> Str.rfind (a ++ b) c = Str.rfind a c.
Proof.
  intros Hb. destruct (in_dec ascii_dec c a) as [Hin|Hn].
  - destruct (split_at_last c a Hin) as (x & y & -> & Hy).
    rewrite <- app_assoc; simpl.
    rewrite !rfind_last; auto. intro H; apply in_app_or in H; tauto.
  - rewrite !rfind_absent; auto. intro H; apply in_app_or in H; tauto.
Qed.

(** A file name without a dot has no extension. *)
Lemma splitext_no_dot (d f : str) :
  Str.rfind (d ++ f) sep = Z.of_nat (List.length d) - 1 ->
  ~ In extsep f ->
  splitext (d ++ f) = (d ++ f, []).
Proof.
  intros Hsep Hf. unfold splitext. rewrite Hsep.
  rewrite (rfind_app_absent extsep d f Hf).
  pose proof (rfind_bound extsep d).
  destruct (Z.ltb_spec (Z.of_nat (List.length d) - 1) (Str.rfind d extsep)); [lia|reflexivity].
Qed.

(** A file name cut at its last dot: the extension starts there unless only
    dots stand before it. *)
Lemma splitext_last_dot (d pre t : str) :
  Str.rfind (d ++ pre ++ extsep :: t) sep = Z.of_nat (List.length d) - 1 ->
  ~ In extsep t ->
  splitext (d ++ pre ++ extsep :: t)
  = if all_dots pre then (d ++ pre ++ extsep :: t, [])
    else (d ++ pre, extsep :: t).
Proof.
  intros Hsep Ht. unfold splitext. rewrite Hsep.
  assert (Hdot : Str.rfind (d ++ pre ++ extsep :: t) extsep
                 = Z.of_nat (List.length (d ++ pre))).
  { rewrite app_assoc. now apply rfind_last. }
  rewrite Hdot, length_app.
  destruct (Z.ltb_spec (Z.of_nat (List.length d) - 1)
                       (Z.of_nat (List.length d + List.length pre))); [|lia].
  replace (Z.to_nat (Z.of_nat (List.length d + List.length pre)
                     - (Z.of_nat (List.length d) - 1 + 1)))
    with (List.length pre) by lia.
  replace (Z.of_nat (List.length d) - 1 + 1) with (Z.of_nat (List.length d)) by lia.
  rewrite skip_leading_dots_spec.
  destruct (all_dots pre); [reflexivity|].
  rewrite <- length_app.
  rewrite (app_assoc d pre (extsep :: t)).
  now rewrite slice_to_app, slice_from_app.
Qed.

Lemma all_dots_absent (s : str) : s <> [] -> ~ In extsep s -> all_dots s = false.
Proof.
  destruct s as [|x t]; intros Hne Hn; [congruence|]. simpl.
  destruct (Ascii.eqb_spec x extsep) as [->|]; [exfalso; apply Hn; now left|reflexivity].
Qed.

Lemma basename_join (d f : str) : ~ In sep f -> basename (join d f) = f.
Proof.
  intros Hf. unfold join. rewrite (startswith_absent sep f Hf).
  destruct (Str.eqb d []) eqn:Ed; simpl.
  - unfold Str.eqb in Ed. destruct (list_eq_dec ascii_dec d []); [subst|discriminate].
    now apply basename_no_sep.
  - destruct (Str.endswith d sep) eqn:Ee.
    + destruct (endswith_inv sep d Ee) as [a ->]. rewrite <- app_assoc. now apply basename_cut.
    + now apply basename_cut.
Qed.

(** ** Identity derived from a path *)

Lemma getInfoFromPath_self (p : str) (m : Machine) :
  self (snd (_getInfoFromPath p m))
  = set_extension (Some (snd (splitext p)))
      (set_name (Some (nth 0 (Str.split (basename p) extsep) []))
         (set_directory (Some (dirname p)) (self m))).
Proof. reflexivity. Qed.

Lemma getInfoFromPath_ok (p : str) (m : Machine) :
  fst (_getInfoFromPath p m) = Ok tt.
Proof. reflexivity. Qed.

Lemma roundtrip_run (p : str) (m : Machine) :
  fst (roundtrip p m)
  = Ok (join (dirname p) (nth 0 (Str.split (basename p) extsep) [] ++ snd (splitext p))).
Proof. reflexivity. Qed.

(** A file name with a dot: the name is cut at the first dot, the extension
    at the last one. *)
Lemma derive_dotted (p : str) :
  In extsep (basename p) ->
  exists n rest pre t,
    basename p = n ++ extsep :: rest /\ ~ In extsep n
    /\ basename p = pre ++ extsep :: t /\ ~ In extsep t
    /\ nth 0 (Str.split (basename p) extsep) [] = n
    /\ snd (splitext p) = (if all_dots pre then [] else extsep :: t).
Proof.
  destruct (path_cut p) as (d & f & Hp & Hf & Hb & Hsep & _).
  rewrite Hb. intros Hin.
  destruct (split_at_first extsep f Hin) as (n & rest & En & Hn).
  destruct (split_at_last extsep f Hin) as (pre & t & Et & Ht).
  exists n, rest, pre, t. repeat split; auto.
  - rewrite En. now apply split_first_piece.
  - rewrite Hp in Hsep |- *. rewrite Et in Hsep |- *.
    rewrite splitext_last_dot by assumption.
    now destruct (all_dots pre).
Qed.

Lemma derive_undotted (p : str) :
  ~ In extsep (basename p) ->
  nth 0 (Str.split (basename p) extsep) [] = basename p /\ snd (splitext p) = [].
Proof.
  destruct (path_cut p) as (d & f & Hp & Hf & Hb & Hsep & _).
  rewrite Hb. intros Hn. split.
  - now rewrite split_no_sep.
  - rewrite Hp in Hsep |- *. now rewrite splitext_no_dot.
Qed.

(** C4 (as the code has it). Deriving an identity from the path
    [/a/b/report.v2.csv] yields the name [report], the extension [.csv] (the
    last extension segment only) and the directory [/a/b]. *)
Theorem getInfoFromPath_report (m : Machine) :
  let h := self (snd (_getInfoFromPath (lit "/a/b/report.v2.csv") m)) in
  name h = Some (lit "report")
  /\ extension h = Some (lit ".csv")
  /\ directory h = Some (lit "/a/b").
Proof. repeat split. Qed.

(** C4, as stated, fails: the extension derived from [/a/b/report.v2.csv]
    is not [.v2.csv]. *)
Lemma getInfoFromPath_report_not_v2_csv :
  let h := self (snd (_getInfoFromPath (lit "/a/b/report.v2.csv") new_handle)) in
  ~ (name h = Some (lit "report")
     /\ extension h = Some (lit ".v2.csv")
     /\ directory h = Some (lit "/a/b")).
Proof. intros h (_ & H & _). vm_compute in H. discriminate H. Qed.

(** C5. For every path whose file name contains a dot, [_getInfoFromPath]
    sets the name to what stands before the first dot of the file name, and
    the extension to the last extension segment only, as [splitext] has it:
    the text from the last dot on, or nothing when only dots stand before that
    dot. For the file name [a.b.tar.gz] this gives the name [a] and the
    extension [.gz], not [.b.tar.gz]. *)
Theorem getInfoFromPath_first_dot_last_segment (p : str) (m : Machine) :
  In extsep (basename p) ->
  let h := self (snd (_getInfoFromPath p m)) in
  fst (_getInfoFromPath p m) = Ok tt
  /\ directory h = Some (dirname p)
  /\ extension h = Some (snd (splitext p))
  /\ (exists n rest pre t,
        basename p = n ++ extsep :: rest /\ ~ In extsep n
        /\ name h = Some n
        /\ basename p = pre ++ extsep :: t /\ ~ In extsep t
        /\ extension h = Some (if all_dots pre then [] else extsep :: t))
  /\ (basename p = lit "a.b.tar.gz" ->
      name h = Some (lit "a") /\ extension h = Some (lit ".gz")
      /\ extension h <> Some (lit ".b.tar.gz")).
Proof.
  intros Hin h.
  destruct (derive_dotted p Hin) as (n & rest & pre & t & En & Hn & Et & Ht & Hname & Hext).
  subst h. rewrite getInfoFromPath_self. simpl name; simpl extension; simpl directory.
  repeat split.
  - exists n, rest, pre, t. rewrite Hname, Hext. repeat split; auto.
  - rewrite Hname. f_equal.
    rewrite H in En.
    change (lit "a.b.tar.gz") with (lit "a" ++ extsep :: lit "b.tar.gz") in En.
    apply first_cut_unique in En; [symmetry; apply En| |assumption].
    simpl; intros [E|[]]; discriminate E.
  - rewrite Hext. f_equal.
    rewrite H in Et.
    change (lit "a.b.tar.gz") with (lit "a.b.tar" ++ extsep :: lit "gz") in Et.
    apply last_cut_unique in Et; [| |assumption].
    + destruct Et as [<- <-]. reflexivity.
    + simpl; intros [E|[E|[]]]; discriminate E.
  - rewrite Hext.
    rewrite H in Et.
    change (lit "a.b.tar.gz") with (lit "a.b.tar" ++ extsep :: lit "gz") in Et.
    apply last_cut_unique in Et; [| |assumption].
    + destruct Et as [<- <-]. discriminate.
    + simpl; intros [E|[E|[]]]; discriminate E.
Qed.

Lemma getInfoFromPath_first_dot_last_segment_witness :
  In extsep (basename (lit "/x/a.b.tar.gz"))
  /\ name (self (snd (_getInfoFromPath (lit "/x/a.b.tar.gz") new_handle))) = Some (lit "a").
Proof.
  assert (Hin : In extsep (basename (lit "/x/a.b.tar.gz"))) by (simpl; tauto).
  split; [exact Hin|].
  destruct (getInfoFromPath_first_dot_last_segment (lit "/x/a.b.tar.gz") new_handle Hin)
    as (_ & _ & _ & _ & H).
  apply H. reflexivity.
Defined.

(** ** Deriving the identity and reading the path back *)

Lemma name_ext_count (n pre t : str) :
  ~ In extsep n -> ~ In extsep t ->
  (Str.count (n ++ (if all_dots pre then [] else extsep :: t)) extsep <= 1)%nat.
Proof.
  intros Hn Ht. rewrite count_app, (count_absent extsep n Hn).
  destruct (all_dots pre); [unfold Str.count; simpl; lia|].
  rewrite count_cons_same, (count_absent extsep t Ht). lia.
Qed.

(** C10 (as the code has it). A path comes back unchanged from
    [_getInfoFromPath] followed by [getAbsolutePath] when its file name has no
    dot, or one dot that is not its first character, and the path is the join
    of its directory and its file name (no redundant slash before the file
    name). A path whose file name has two or more dots never comes back: what
    is returned is the directory joined with the first dot-separated segment
    of the name plus the last extension segment only, as for
    [/a/b/report.v2.csv], which comes back as [/a/b/report.csv]. *)
Theorem roundtrip_paths (p : str) (m : Machine) :
  ((Str.count (basename p) extsep <= 1)%nat ->
   Str.startswith (basename p) extsep = false ->
   join (dirname p) (basename p) = p ->
   fst (roundtrip p m) = Ok p)
  /\ ((2 <= Str.count (basename p) extsep)%nat ->
      fst (roundtrip p m) <> Ok p
      /\ exists n rest pre t,
           basename p = n ++ extsep :: rest /\ ~ In extsep n
           /\ basename p = pre ++ extsep :: t /\ ~ In extsep t
           /\ fst (roundtrip p m)
              = Ok (join (dirname p) (n ++ (if all_dots pre then [] else extsep :: t))))
  /\ fst (roundtrip (lit "/a/b/report.v2.csv") m) = Ok (lit "/a/b/report.csv").
Proof.
  rewrite roundtrip_run. split; [|split; [|reflexivity]].
  - intros Hc Hs Hj.
    destruct (in_dec ascii_dec extsep (basename p)) as [Hin|Hn].
    + destruct (derive_dotted p Hin)
        as (n & rest & pre & t & En & Hn & Et & Ht & Hname & Hext).
      rewrite Et, count_app, count_cons_same in Hc.
      assert (Hpre : ~ In extsep pre) by (apply count_zero_absent; lia).
      assert (Hne : pre <> []).
      { intros ->. rewrite Et in Hs. simpl in Hs. discriminate Hs. }
      rewrite Hname, Hext, (all_dots_absent pre Hne Hpre).
      rewrite Et in En. apply first_cut_unique in En; auto.
      destruct En as [-> _]. rewrite <- Et. now rewrite Hj.
    + destruct (derive_undotted p Hn) as [-> ->]. rewrite app_nil_r. now rewrite Hj.
  - intros Hc.
    assert (Hin : In extsep (basename p)).
    { destruct (in_dec ascii_dec extsep (basename p)) as [Hin|Hn]; [assumption|].
      rewrite (count_absent extsep _ Hn) in Hc. lia. }
    destruct (derive_dotted p Hin)
      as (n & rest & pre & t & En & Hn & Et & Ht & Hname & Hext).
    rewrite Hname, Hext. split.
    + intros E. injection E as E.
      destruct (path_cut p) as (d & f & _ & Hf & Hb & _).
      assert (Hsep : ~ In sep (n ++ (if all_dots pre then [] else extsep :: t))).
      { intros H. apply Hf. rewrite <- Hb.
        apply in_app_or in H. destruct H as [H|H].
        - rewrite En. apply in_or_app; now left.
        - destruct (all_dots pre); [destruct H|].
          rewrite Et. apply in_or_app; now right. }
      pose proof (eq_trans (eq_sym (f_equal basename E))
                           (basename_join (dirname p) _ Hsep)) as Hbj.
      pose proof (name_ext_count n pre t Hn Ht) as Hle.
      rewrite Hbj in Hc. lia.
    + exists n, rest, pre, t. repeat split; auto.
Qed.

Lemma roundtrip_paths_witness :
  fst (roundtrip (lit "/tmp/x/Foo.bar") new_handle) = Ok (lit "/tmp/x/Foo.bar")
  /\ fst (roundtrip (lit "/a/b/report.v2.csv") new_handle) <> Ok (lit "/a/b/report.v2.csv").
Proof.
  split.
  - apply (proj1 (roundtrip_paths (lit "/tmp/x/Foo.bar") new_handle)).
    + vm_compute. lia.
    + reflexivity.
    + reflexivity.
  - apply (proj1 (proj2 (roundtrip_paths (lit "/a/b/report.v2.csv") new_handle))).
    vm_compute. lia.
Defined.

(** C10, as stated, fails: the file name [.bashrc] of the absolute path
    [/a/.bashrc] has a single dot, and the path comes back as [/a/]. *)
Lemma roundtrip_dotfile_changed :
  ~ (Str.startswith (lit "/a/.bashrc") sep = true ->
     (Str.count (basename (lit "/a/.bashrc")) extsep <= 1)%nat ->
     fst (roundtrip (lit "/a/.bashrc") new_handle) = Ok (lit "/a/.bashrc")).
Proof.
  intros H.
  assert (E : fst (roundtrip (lit "/a/.bashrc") new_handle) = Ok (lit "/a/.bashrc")).
  { apply H; [reflexivity|]. vm_compute. lia. }
  vm_compute in E. discriminate E.
Qed.

Example roundtrip_double_slash :
  fst (roundtrip (lit "/a//b.c") new_handle) = Ok (lit "/a/b.c").
Proof. reflexivity. Qed.

(** ** Running the methods *)

Lemma identity_set_inv (h : FileBase) :
  identity_set h = true ->
  exists n e d, name h = Some n /\ extension h = Some e /\ directory h = Some d.
Proof.
  unfold identity_set.
  destruct (name h) as [n|], (extension h) as [e|], (directory h) as [d|];
    simpl; try discriminate.
  intros _. now exists n, e, d.
Qed.

Lemma identity_set_complete (h : FileBase) (n e d : str) :
  name h = Some n -> extension h = Some e -> directory h = Some d ->
  identity_set h = true.
Proof. unfold identity_set. now intros -> -> ->. Qed.

Section SaveRuns.

Variable pickle : Pickle.

(** Without a full identity [save] ends in the call of
    [_throwNotEnoughInfo], which fails on its argument count before any of
    its statements runs; the machine is left as it was. *)
Lemma save_incomplete (m : Machine) :
  identity_set (self m) = false ->
  save pickle m = (Raise (TypeError_arity "_throwNotEnoughInfo" 1 2), m).
Proof.
  intros H. unfold save, bind, get_self. simpl. rewrite H. reflexivity.
Qed.

(** With a full identity [save] opens the absolute path for writing,
    pickles the data into it and clears the flag. *)
Lemma save_complete (m : Machine) (n e d : str) :
  name (self m) = Some n -> extension (self m) = Some e -> directory (self m) = Some d ->
  let p := join d (n ++ e) in
  let w1 := log (IoOpen p "w+b") (world m) in
  save pickle m =
    if writable (world m) p then
      match dump pickle (data (self m)) with
      | Some b =>
          (Ok tt,
           {| self := set_unsavedChanges false (self m);
              world := log (IoWrite p b) (put_file p b (put_file p [] w1));
              history := set_unsavedChanges false (self m) :: history m |})
      | None =>
          (Raise PicklingError,
           {| self := self m; world := put_file p [] w1; history := history m |})
      end
    else
      (Raise (IOError p), {| self := self m; world := w1; history := history m |}).
Proof.
  intros Hn He Hd p w1.
  unfold save, bind, get_self. cbv beta iota.
  rewrite (identity_set_complete _ n e d Hn He Hd).
  unfold getAbsolutePath, bind, get_self. cbv beta iota.
  rewrite Hn, He, Hd. unfold ret. cbv beta iota. fold p.
  unfold open_wb, bind, get_world, set_world. cbv beta iota.
  change (writable (log (IoOpen p "w+b") (world m)) p) with (writable (world m) p).
  destruct (writable (world m) p); [|reflexivity].
  cbn [self world history].
  destruct (dump pickle (data (self m))); reflexivity.
Qed.

End SaveRuns.

(** With a full identity [_initWatchdog] creates an observer, stores it in
    the handle, schedules the handler on the directory and starts it. *)
Lemma initWatchdog_complete (m : Machine) (n e d : str) :
  name (self m) = Some n -> extension (self m) = Some e -> directory (self m) = Some d ->
  let id := List.length (observers (world m)) in
  let h1 := set_watchdog (Some id) (self m) in
  let h2 := set_watchdogHandler (Some HandlerOfSelf) h1 in
  _initWatchdog m =
    (Ok tt,
     {| self := h2;
        world :=
          update_observer id
            (fun o => {| obs_id := obs_id o; obs_watches := obs_watches o;
                         obs_started := true |})
            (update_observer id
               (fun o => {| obs_id := obs_id o;
                            obs_watches := (HandlerOfSelf, d, false) :: obs_watches o;
                            obs_started := obs_started o |})
               (set_observers ({| obs_id := id; obs_watches := []; obs_started := false |}
                                 :: observers (world m)) (world m)));
        history := h2 :: h1 :: history m |}).
Proof.
  intros Hn He Hd. unfold _initWatchdog, bind, get_self. simpl.
  rewrite Hn, He, Hd. reflexivity.
Qed.

Lemma initWatchdog_incomplete (m : Machine) :
  identity_set (self m) = false ->
  _initWatchdog m = (Raise (TypeError_arity "_throwNotEnoughInfo" 1 2), m).
Proof.
  intros H. unfold _initWatchdog, bind, get_self. simpl.
  unfold identity_set in H.
  destruct (name (self m)), (extension (self m)), (directory (self m));
    simpl in H; try discriminate; reflexivity.
Qed.







(** ** Saving *)

(** What the statements of [_throwNotEnoughInfo] build once [self] is bound:
    the missing fields in the order name, extension, directory. *)
Example throwNotEnoughInfo_body_all_missing :
  fst (body _throwNotEnoughInfo
         [("self"%string, VSelf); ("itemThatFailed"%string, VStr (lit "save"))] new_handle)
  = Raise (NotEnoughInfoOnFile
             (lit "The file name and extension and directory to intialise the save")).
Proof. reflexivity. Qed.

(** Called with the item alone, the function has no [self] to read. *)
Example throwNotEnoughInfo_one_argument :
  fst (call _throwNotEnoughInfo [VStr (lit "save")] new_handle) = Raise (NameError "self").
Proof. reflexivity. Qed.

(** C1 (the code at the failing input). On a handle built without a path,
    where name, extension and directory are all unset, [save()] does not
    raise [NotEnoughInfoOnFile]: the method call [self._throwNotEnoughInfo("save")]
    passes two arguments to a function declared with one, and [TypeError] is
    raised before any message is built. *)
Theorem save_unset_identity_raises_TypeError (pickle : Pickle) (w : World) :
  let m := snd (construct pickle None w) in
  name (self m) = None /\ extension (self m) = None /\ directory (self m) = None
  /\ fst (save pickle m) = Raise (TypeError_arity "_throwNotEnoughInfo" 1 2)
  /\ forall msg, fst (save pickle m) <> Raise (NotEnoughInfoOnFile msg).
Proof. repeat split. intros msg H. discriminate H. Qed.

(** C2. A [save()] that fails leaves the object exactly as it was: the dirty
    flag, the name, the extension, the directory and the data are those before
    the call, whether the failure is the incomplete identity or an error of
    the write. When the identity is incomplete nothing outside the object
    changes either: no file is opened or written. *)
Theorem save_failure_atomic (pickle : Pickle) (m : Machine) :
  is_ok (fst (save pickle m)) = false ->
  let m' := snd (save pickle m) in
  self m' = self m
  /\ unsavedChanges (self m') = unsavedChanges (self m)
  /\ name (self m') = name (self m)
  /\ extension (self m') = extension (self m)
  /\ directory (self m') = directory (self m)
  /\ data (self m') = data (self m)
  /\ (identity_set (self m) = false ->
      m' = m /\ io_log (world m') = io_log (world m) /\ files (world m') = files (world m)).
Proof.
  intros Hfail m'.
  assert (Hself : self m' = self m).
  { subst m'. destruct (identity_set (self m)) eqn:Hid.
    - destruct (identity_set_inv _ Hid) as (n & e & d & Hn & He & Hd).
      rewrite (save_complete pickle m n e d Hn He Hd) in Hfail |- *.
      destruct (writable (world m) (join d (n ++ e))); [|reflexivity].
      destruct (dump pickle (data (self m))); [discriminate Hfail|reflexivity].
    - now rewrite save_incomplete. }
  repeat split; try (now rewrite Hself);
    subst m'; rewrite save_incomplete by assumption; reflexivity.
Qed.

Lemma save_failure_atomic_witness :
  is_ok (fst (save sample_pickle new_handle)) = false
  /\ self (snd (save sample_pickle new_handle)) = self new_handle.
Proof.
  split; [reflexivity|].
  apply (save_failure_atomic sample_pickle new_handle). reflexivity.
Defined.

(** A write the host refuses: the identity set by [saveAs] stays, the flag
    set by [setData] stays. *)
Example save_refused_keeps_flag :
  let m := snd (setData (PyStr (lit "X"))
                  (snd (construct sample_pickle (Some (lit "/tmp/x/Foo.bar")) readonly_world))) in
  fst (save sample_pickle m) = Raise (IOError (lit "/tmp/x/Foo.bar"))
  /\ self (snd (save sample_pickle m)) = self m
  /\ unsavedChanges (self m) = true.
Proof. repeat split. Qed.

(** ** Changing the data *)

Lemma setData_run (v : pyobj) (m : Machine) :
  setData v m =
    (Ok tt,
     {| self := set_data v (set_unsavedChanges true (self m));
        world := world m;
        history := set_data v (set_unsavedChanges true (self m))
                   :: set_unsavedChanges true (self m) :: history m |}).
Proof. reflexivity. Qed.

(** C3 (as the code has it). [setData(v)] first marks the handle dirty and
    only then replaces the owned data with [v]: of its two assignments the
    first sets the flag while the data is still the previous value, the second
    stores [v]. When [setData] returns the flag is set and the data is [v]. *)
Theorem setData_marks_then_replaces (v : pyobj) (m : Machine) :
  assignments (setData v) m
  = [set_unsavedChanges true (self m);
     set_data v (set_unsavedChanges true (self m))]
  /\ (forall first second,
        assignments (setData v) m = [first; second] ->
        unsavedChanges first = true /\ data first = data (self m)
        /\ unsavedChanges second = true /\ data second = v)
  /\ fst (setData v m) = Ok tt
  /\ unsavedChanges (self (snd (setData v m))) = true
  /\ data (self (snd (setData v m))) = v.
Proof.
  assert (E : assignments (setData v) m
              = [set_unsavedChanges true (self m);
                 set_data v (set_unsavedChanges true (self m))]).
  { unfold assignments. rewrite setData_run. cbn [snd history List.length].
    replace (S (S (List.length (history m))) - List.length (history m))%nat
      with 2%nat by lia.
    reflexivity. }
  split; [exact E|]. split; [|repeat split].
  intros first second H. rewrite E in H. injection H as <- <-. repeat split.
Qed.

Lemma setData_marks_then_replaces_witness :
  assignments (setData (PyStr (lit "X"))) new_handle
  = [set_unsavedChanges true (self new_handle);
     set_data (PyStr (lit "X")) (set_unsavedChanges true (self new_handle))]
  /\ data (set_unsavedChanges true (self new_handle)) = data (self new_handle).
Proof.
  split; [reflexivity|].
  apply (proj1 (proj2 (setData_marks_then_replaces (PyStr (lit "X")) new_handle))
           _ (set_data (PyStr (lit "X")) (set_unsavedChanges true (self new_handle)))).
  reflexivity.
Defined.

(** C3, as stated, fails: on a new handle, at the assignment that turns the
    flag on, the data is still [None], not the value given to [setData]. *)
Lemma setData_flag_before_data :
  ~ (forall s, In s (assignments (setData (PyStr (lit "X"))) new_handle) ->
               unsavedChanges s = true -> data s = PyStr (lit "X")).
Proof.
  intros H.
  specialize (H (set_unsavedChanges true (self new_handle))).
  assert (E : data (set_unsavedChanges true (self new_handle)) = PyStr (lit "X")).
  { apply H; [left; reflexivity | reflexivity]. }
  discriminate E.
Qed.

(** ** Opening *)

(** C7 (the code at the failing input). A handle is built without a path,
    given data with [setData], and then opened on the existing file
    [/tmp/x/Foo.bar]: [open] succeeds, the identity is derived from the path,
    the data is the one stored in the file, an observer is started on the
    directory, and yet [hasUnsavedChanges()] still returns [True], because
    [open] never touches the flag. *)
Theorem open_on_dirty_handle_stays_dirty :
  let path := lit "/tmp/x/Foo.bar" in
  let m0 := snd (construct sample_pickle None foo_world) in
  let m1 := snd (setData (PyStr (lit "X")) m0) in
  let m2 := snd (open sample_pickle path m1) in
  fst (os_path_exists path m1) = Ok true
  /\ fst (open sample_pickle path m1) = Ok tt
  /\ name (self m2) = Some (lit "Foo")
  /\ extension (self m2) = Some (lit ".bar")
  /\ directory (self m2) = Some (lit "/tmp/x")
  /\ data (self m2) = PyStr (lit "Y")
  /\ live (world m2) = [new_subscription 0 (lit "/tmp/x")]
  /\ fst (hasUnsavedChanges m1) = Ok true
  /\ fst (hasUnsavedChanges m2) = Ok true.
Proof. repeat split. Qed.

(** Through the constructor the same file is opened on a clean handle. *)
Example construct_existing_is_clean :
  let r := construct sample_pickle (Some (lit "/tmp/x/Foo.bar")) foo_world in
  fst r = Ok tt
  /\ data (self (snd r)) = PyStr (lit "Y")
  /\ fst (hasUnsavedChanges (snd r)) = Ok false.
Proof. repeat split. Qed.

(** ** The deleted event *)



(** After the event the file is gone from the filesystem; the next [save()]
    puts it back at the same path. *)
Example save_after_delete_recreates :
  let path := lit "/tmp/x/Foo.bar" in
  let m := snd (construct sample_pickle (Some path) empty_world) in
  let gone := {| self := self m; world := set_observers (observers (world m)) empty_world;
                 history := history m |} in
  files (world gone) path = None
  /\ fst (save sample_pickle gone) = Ok tt
  /\ files (world (snd (save sample_pickle gone))) path = Some [].
Proof. repeat split. Qed.

(** ** Properties kept by the methods *)

Lemma preserves_ret {A} (P : Machine -> Prop) (a : A) : preserves P (ret a).
Proof. intros m H; exact H. Qed.

Lemma preserves_raise {A} (P : Machine -> Prop) (e : exn) : preserves P (@raise A e).
Proof. intros m H; exact H. Qed.

Lemma preserves_get_self (P : Machine -> Prop) : preserves P get_self.
Proof. intros m H; exact H. Qed.

Lemma preserves_get_world (P : Machine -> Prop) : preserves P get_world.
Proof. intros m H; exact H. Qed.

Lemma preserves_bind {A B} (P : Machine -> Prop) (c : M A) (k : A -> M B) :
  preserves P c -> (forall a, preserves P (k a)) -> preserves P (bind c k).
Proof.
  intros Hc Hk m Hm. unfold bind. specialize (Hc m Hm).
  destruct (c m) as [[a|e] m']; simpl in *; [now apply Hk | assumption].
Qed.

Lemma preserves_call {A} (P : Machine -> Prop) (f : pyfunc A) (args : list pyval) :
  (forall e, preserves P (body f e)) -> preserves P (call f args).
Proof.
  intros Hb. unfold call.
  destruct (Nat.eqb (List.length args) (List.length (params f)));
    [apply Hb | apply preserves_raise].
Qed.

Lemma preserves_throwNotEnoughInfo (P : Machine -> Prop) (args : list pyval) :
  preserves P (call _throwNotEnoughInfo args).
Proof.
  apply preserves_call. intros e. simpl. apply preserves_bind.
  - unfold load_object. destruct (lookup "self" e) as [[|s]|];
      [apply preserves_get_self | apply preserves_raise | apply preserves_raise].
  - intros h. apply preserves_raise.
Qed.

Create HintDb frame.
#[local] Hint Resolve preserves_ret preserves_raise preserves_get_self preserves_get_world
  preserves_throwNotEnoughInfo : frame.

Ltac frame :=
  repeat first
    [ apply preserves_bind; [|intros ?]
    | solve [auto with frame] ].

Section Frame.

Variable pickle : Pickle.
Variable P : Machine -> Prop.

(** [P] looks neither at the identity nor at the data, *)
Hypothesis P_directory : forall v, preserves P (setattr (set_directory v)).
Hypothesis P_name : forall v, preserves P (setattr (set_name v)).
Hypothesis P_extension : forall v, preserves P (setattr (set_extension v)).
Hypothesis P_data : forall v, preserves P (setattr (set_data v)).
(** nor at the files and the log of the world, *)
Hypothesis P_world : forall m w,
  observers w = observers (world m) ->
  P m -> P {| self := self m; world := w; history := history m |}.
(** and starting a watchdog keeps it. *)
Hypothesis P_initWatchdog : preserves P _initWatchdog.



Lemma preserves_getAbsolutePath : preserves P getAbsolutePath.
Proof.
  unfold getAbsolutePath. apply preserves_bind; [auto with frame|]. intros h.
  destruct (name h), (extension h), (directory h); auto with frame.
  destruct (Str.startswith _ _); auto with frame.
Qed.

Lemma preserves_os_path_exists (path : str) : preserves P (os_path_exists path).
Proof. intros m Hm. now apply P_world. Qed.

Lemma preserves_open_wb (path : str) : preserves P (open_wb path).
Proof.
  intros m Hm. unfold open_wb, bind, get_world, set_world. cbn.
  destruct (writable (world m) path); cbn; now apply P_world.
Qed.

Lemma preserves_file_write (path : str) (b : bytes) : preserves P (file_write path b).
Proof. intros m Hm. now apply P_world. Qed.

Lemma preserves_open_rb_read (path : str) : preserves P (open_rb_read path).
Proof.
  intros m Hm. unfold open_rb_read, bind, get_world, set_world. cbn.
  destruct (files (world m) path); cbn; [|now apply P_world].
  destruct (writable (world m) path); cbn; now apply P_world.
Qed.




(** When clearing the flag keeps [P] as well, so do [save] and [saveAs]. *)
Hypothesis P_saved : preserves P (setattr (set_unsavedChanges false)).

Lemma preserves_save : preserves P (save pickle).
Proof.
  unfold save. apply preserves_bind; [auto with frame|]. intros h.
  destruct (identity_set h); [|auto with frame].
  apply preserves_bind; [apply preserves_getAbsolutePath|]. intros p.
  apply preserves_bind; [apply preserves_open_wb|]. intros _.
  apply preserves_bind; [auto with frame|]. intros h'.
  destruct (dump pickle (data h')); [|auto with frame].
  apply preserves_bind; [apply preserves_file_write|]. intros _. exact P_saved.
Qed.


End Frame.

(** ** The dirty flag *)

Section DirtyFlag.

Variable pickle : Pickle.









End DirtyFlag.


Example dirty_flag_demo :
  let r := run sample_pickle
             [Do_hasUnsavedChanges; Do_setData (PyStr (lit "SOME BOGUS DATA"));
              Do_hasUnsavedChanges; Do_save; Do_hasUnsavedChanges]
             (snd (construct sample_pickle (Some (lit "/tmp/x/Foo.bar")) empty_world)) in
  map snd (fst r) = [true; true; true; true; true]
  /\ unsavedChanges (self (snd r)) = false.
Proof. repeat split. Qed.

(** ** Watch subscriptions *)





Section Subscriptions.

Variable pickle : Pickle.


Lemma construct_path (path : str) (w : World) :
  construct pickle (Some path) w
  = (found <- os_path_exists path ;;
     if found then open pickle path else saveAs pickle path)
      {| self := blank; world := w; history := repeat blank 6 |}.
Proof. reflexivity. Qed.




End Subscriptions.




(** * Further properties of the module *)

(** ** The shape of a derived identity *)

Lemma rstrip_snoc (s : str) (c : ascii) : Str.rstrip (s ++ [c]) c = Str.rstrip s c.
Proof.
  induction s as [|x s IH]; simpl.
  - now rewrite Ascii.eqb_refl.
  - now rewrite IH.
Qed.

Lemma rstrip_snoc_other (s : str) (c x : ascii) :
  x <> c -> Str.rstrip (s ++ [x]) c = s ++ [x].
Proof.
  intros Hx. induction s as [|y s IH]; simpl.
  - destruct (Ascii.eqb_spec x c); [contradiction|reflexivity].
  - rewrite IH. now destruct s.
Qed.

Lemma endswith_snoc (s : str) (c x : ascii) :
  Str.endswith (s ++ [x]) c = Ascii.eqb x c.
Proof. unfold Str.endswith. now rewrite rev_app_distr. Qed.

Lemma rstrip_not_ends (s : str) (c : ascii) :
  Str.endswith (Str.rstrip s c) c = false.
Proof.
  induction s as [|x s IH] using rev_ind; [reflexivity|].
  destruct (ascii_dec x c) as [->|Hx].
  - now rewrite rstrip_snoc.
  - rewrite rstrip_snoc_other by assumption. rewrite endswith_snoc.
    now apply Ascii.eqb_neq.
Qed.

Lemma rstrip_fixed (s : str) (c : ascii) :
  Str.endswith s c = false -> Str.rstrip s c = s.
Proof.
  destruct s as [|x s] using rev_ind; [reflexivity|].
  rewrite endswith_snoc. intros Hx. apply rstrip_snoc_other.
  now apply Ascii.eqb_neq.
Qed.

Lemma all_slashes_spec (s : str) :
  all_slashes s = true <-> s = repeat sep (List.length s).
Proof.
  unfold all_slashes, Str.eqb, Str.times.
  destruct (list_eq_dec ascii_dec s (repeat sep (List.length s))); split; congruence.
Qed.

Lemma all_slashes_snoc (s : str) :
  all_slashes (s ++ [sep]) = all_slashes s.
Proof.
  apply eq_true_iff_eq. rewrite !all_slashes_spec.
  rewrite length_app. simpl List.length.
  replace (List.length s + 1)%nat with (S (List.length s)) by lia.
  simpl repeat. rewrite repeat_cons. split.
  - intros H. now apply app_inj_tail in H.
  - intros H. now rewrite <- H.
Qed.

(** What [dirname] returns ends in a slash only when it is all slashes. *)
Lemma dirname_end (p : str) :
  all_slashes (dirname p) = false -> Str.endswith (dirname p) sep = false.
Proof.
  unfold dirname.
  set (head := Str.slice_to p (Str.rfind p sep + 1)).
  change (Str.eqb head (Str.times sep (List.length head))) with (all_slashes head).
  destruct (Str.eqb head []) eqn:E0; simpl.
  - unfold Str.eqb in E0. destruct (list_eq_dec ascii_dec head []) as [->|]; [|discriminate].
    discriminate.
  - destruct (all_slashes head) eqn:E1; simpl; [congruence|].
    intros _. apply rstrip_not_ends.
Qed.

(** Joining a directory with a file name and taking the directory again. *)
Lemma dirname_join (d f : str) :
  ~ In sep f ->
  (all_slashes d = false -> Str.endswith d sep = false) ->
  dirname (join d f) = d.
Proof.
  intros Hf Hd. unfold join. rewrite (startswith_absent sep f Hf).
  destruct (all_slashes d) eqn:Ea.
  - apply all_slashes_spec in Ea.
    destruct d as [|x d'].
    + simpl. now apply dirname_no_sep.
    + assert (Ee : Str.endswith (x :: d') sep = true).
      { rewrite Ea. simpl List.length. simpl repeat. rewrite repeat_cons.
        rewrite endswith_snoc. apply Ascii.eqb_refl. }
      assert (E0 : Str.eqb (x :: d') [] = false).
      { unfold Str.eqb. now destruct (list_eq_dec ascii_dec (x :: d') []). }
      rewrite E0, Ee. simpl orb. cbv iota.
      destruct (endswith_inv sep _ Ee) as [a Ha]. rewrite Ha, <- app_assoc. simpl app.
      unfold dirname. rewrite rfind_last by assumption.
      replace (a ++ sep :: f) with ((a ++ [sep]) ++ f) by now rewrite <- app_assoc.
      replace (Z.of_nat (List.length a) + 1) with (Z.of_nat (List.length (a ++ [sep])))
        by (rewrite length_app; simpl; lia).
      rewrite slice_to_app.
      change (Str.eqb (a ++ [sep]) (Str.times sep (List.length (a ++ [sep]))))
        with (all_slashes (a ++ [sep])).
      rewrite <- Ha.
      assert (Eall : all_slashes (x :: d') = true) by now apply all_slashes_spec.
      rewrite Eall. now rewrite andb_false_r.
  - specialize (Hd eq_refl). rewrite Hd.
    assert (E0 : Str.eqb d [] = false).
    { unfold Str.eqb. destruct (list_eq_dec ascii_dec d []) as [->|]; [discriminate Ea|reflexivity]. }
    rewrite E0. simpl orb. cbv iota.
    unfold dirname. rewrite rfind_last by assumption.
    replace (d ++ sep :: f) with ((d ++ [sep]) ++ f) by now rewrite <- app_assoc.
    replace (Z.of_nat (List.length d) + 1) with (Z.of_nat (List.length (d ++ [sep])))
      by (rewrite length_app; simpl; lia).
    rewrite slice_to_app.
    change (Str.eqb (d ++ [sep]) (Str.times sep (List.length (d ++ [sep]))))
      with (all_slashes (d ++ [sep])).
    rewrite all_slashes_snoc, Ea.
    assert (E1 : Str.eqb (d ++ [sep]) [] = false).
    { unfold Str.eqb. destruct (list_eq_dec ascii_dec (d ++ [sep]) []) as [E|]; [|reflexivity].
      now destruct d. }
    rewrite E1. simpl. rewrite rstrip_snoc. now apply rstrip_fixed.
Qed.

Lemma basename_no_slash (p : str) : ~ In sep (basename p).
Proof. destruct (path_cut p) as (d & f & _ & Hf & -> & _). exact Hf. Qed.

(** The name and the extension a path gives: no slash in either, no dot in
    the name, one dot at most in the extension, at its head. *)
Lemma derive_shape (p : str) :
  let n := nth 0 (Str.split (basename p) extsep) [] in
  let e := snd (splitext p) in
  ~ In extsep n /\ ~ In sep (n ++ e)
  /\ (e = [] \/ exists t, e = extsep :: t /\ ~ In extsep t
                          /\ (Str.startswith (basename p) extsep = false -> n <> [])).
Proof.
  intros n e. subst n e. pose proof (basename_no_slash p) as Hs.
  destruct (in_dec ascii_dec extsep (basename p)) as [Hin|Hn].
  - destruct (derive_dotted p Hin)
      as (n & rest & pre & t & En & Hn & Et & Ht & -> & ->).
    repeat split; auto.
    + intros H. apply Hs. apply in_app_or in H. destruct H as [H|H].
      * rewrite En. apply in_or_app; now left.
      * destruct (all_dots pre); [destruct H|]. rewrite Et. apply in_or_app; now right.
    + destruct (all_dots pre); [now left|]. right. exists t. repeat split; auto.
      intros Hst ->. rewrite En in Hst. simpl in Hst. discriminate Hst.
  - destruct (derive_undotted p Hn) as [-> ->]. rewrite app_nil_r. auto.
Qed.

(** X1. Whatever the path, the identity [_getInfoFromPath] derives has a
    name without dot or slash and an extension without slash that is empty or
    one dot followed by dot-free text; [getAbsolutePath] then succeeds, and the
    path it returns lies in the derived directory and has the name followed by
    the extension as its file name, with at most one dot in it. *)
Theorem derived_identity_shape (p : str) (m : Machine) :
  let m' := snd (_getInfoFromPath p m) in
  exists n e q,
    name (self m') = Some n /\ extension (self m') = Some e
    /\ directory (self m') = Some (dirname p)
    /\ ~ In extsep n /\ ~ In sep n /\ ~ In sep e
    /\ (e = [] \/ exists t, e = extsep :: t /\ ~ In extsep t)
    /\ getAbsolutePath m' = (Ok q, m')
    /\ basename q = n ++ e
    /\ dirname q = dirname p
    /\ (Str.count (basename q) extsep <= 1)%nat.
Proof.
  intros m'.
  destruct (derive_shape p) as (Hn & Hs & He).
  set (n := nth 0 (Str.split (basename p) extsep) []) in *.
  set (e := snd (splitext p)) in *.
  exists n, e, (join (dirname p) (n ++ e)).
  assert (Hb : basename (join (dirname p) (n ++ e)) = n ++ e) by now apply basename_join.
  repeat split; auto.
  - intros H. apply Hs. apply in_or_app; now left.
  - intros H. apply Hs. apply in_or_app; now right.
  - destruct He as [He|(t & He & Ht & _)]; [now left|]. right. now exists t.
  - apply dirname_join; [assumption | apply dirname_end].
  - rewrite Hb, count_app, (count_absent extsep n Hn).
    destruct He as [->|(t & -> & Ht & _)]; [unfold Str.count; simpl; lia|].
    rewrite count_cons_same, (count_absent extsep t Ht). lia.
Qed.

Lemma rederive (p : str) :
  Str.startswith (basename p) extsep = false ->
  let n := nth 0 (Str.split (basename p) extsep) [] in
  let e := snd (splitext p) in
  let q := join (dirname p) (n ++ e) in
  nth 0 (Str.split (basename q) extsep) [] = n
  /\ snd (splitext q) = e
  /\ dirname q = dirname p.
Proof.
  intros Hst n e q.
  destruct (derive_shape p) as (Hn & Hs & He). fold n e in Hn, Hs, He.
  assert (Hb : basename q = n ++ e) by now apply basename_join.
  assert (Hd : dirname q = dirname p)
    by (apply dirname_join; [assumption | apply dirname_end]).
  destruct He as [He|(t & He & Ht & Hne)].
  - rewrite He, app_nil_r in Hb.
    assert (Hq : ~ In extsep (basename q)) by now rewrite Hb.
    destruct (derive_undotted q Hq) as [-> ->]. now rewrite He.
  - specialize (Hne Hst). rewrite He in Hb.
    assert (Hq : In extsep (basename q))
      by (rewrite Hb; apply in_or_app; right; now left).
    destruct (derive_dotted q Hq)
      as (n' & rest' & pre' & t' & En' & Hn' & Et' & Ht' & -> & ->).
    rewrite Hb in En', Et'.
    apply first_cut_unique in En'; auto. destruct En' as [En' _].
    apply last_cut_unique in Et'; auto. destruct Et' as [Epre Et'].
    rewrite <- En', <- Epre, <- Et', (all_dots_absent n Hne Hn).
    now rewrite He.
Qed.

(** X2. When the file name of a path does not start with a dot, deriving
    the identity from the path and then again from the absolute path of that
    identity changes nothing: the second derivation finds the same name,
    extension and directory, and the whole object is as after the first. *)
Theorem rederive_from_absolute_path (p q : str) (m : Machine) :
  Str.startswith (basename p) extsep = false ->
  fst (roundtrip p m) = Ok q ->
  let m1 := snd (_getInfoFromPath p m) in
  self (snd (_getInfoFromPath q m1)) = self m1
  /\ fst (roundtrip q m1) = Ok q.
Proof.
  intros Hst Hq m1. rewrite roundtrip_run in Hq. injection Hq as Hq.
  destruct (rederive p Hst) as (Hn & He & Hd). rewrite Hq in Hn, He, Hd.
  split.
  - subst m1. rewrite !getInfoFromPath_self. rewrite Hn, He, Hd.
    now destruct (self m).
  - rewrite roundtrip_run, Hn, He, Hd. now rewrite Hq.
Qed.

Lemma rederive_from_absolute_path_witness :
  self (snd (_getInfoFromPath (lit "/a/b/report.csv")
               (snd (_getInfoFromPath (lit "/a/b/report.v2.csv") new_handle))))
  = self (snd (_getInfoFromPath (lit "/a/b/report.v2.csv") new_handle)).
Proof.
  apply (proj1 (rederive_from_absolute_path (lit "/a/b/report.v2.csv")
                  (lit "/a/b/report.csv") new_handle eq_refl eq_refl)).
Defined.

(** With a leading dot the second derivation loses the extension. *)
Example rederive_leading_dot :
  let m1 := snd (_getInfoFromPath (lit "/x/.a.b") new_handle) in
  fst (getAbsolutePath m1) = Ok (lit "/x/.b")
  /\ extension (self m1) = Some (lit ".b")
  /\ extension (self (snd (_getInfoFromPath (lit "/x/.b") m1))) = Some (lit "").
Proof. repeat split. Qed.

(** ** Relocation without saving *)

Lemma str_eqb_neq (a b : str) : a <> b -> Str.eqb a b = false.
Proof. unfold Str.eqb. destruct (list_eq_dec ascii_dec a b); congruence. Qed.

Lemma getAbsolutePath_set (m : Machine) (n e d : str) :
  name (self m) = Some n -> extension (self m) = Some e -> directory (self m) = Some d ->
  getAbsolutePath m = (Ok (join d (n ++ e)), m).
Proof.
  intros Hn He Hd. unfold getAbsolutePath, bind, get_self. cbv beta iota.
  now rewrite Hn, He, Hd.
Qed.



(** ** The event filter *)

(** X4. An event whose source path is not the handle's current absolute
    path is ignored by all three handlers: nothing is raised and the object
    and the world stay exactly as they were. *)
Theorem unrelated_event_ignored (ev : event) (m : Machine) (n e d : str) :
  name (self m) = Some n -> extension (self m) = Some e -> directory (self m) = Some d ->
  src_path ev <> join d (n ++ e) ->
  dispatch ev m = (Ok tt, m)
  /\ on_moved ev m = (Ok tt, m)
  /\ on_deleted ev m = (Ok tt, m)
  /\ on_modified ev m = (Ok tt, m).
Proof.
  intros Hn He Hd Hsrc.
  pose proof (getAbsolutePath_set m n e d Hn He Hd) as Hp.
  pose proof (str_eqb_neq _ _ Hsrc) as Hneq.
  assert (H1 : on_moved ev m = (Ok tt, m))
    by (unfold on_moved, bind; rewrite Hp, Hneq; reflexivity).
  assert (H2 : on_deleted ev m = (Ok tt, m))
    by (unfold on_deleted, bind; rewrite Hp, Hneq; reflexivity).
  assert (H3 : on_modified ev m = (Ok tt, m))
    by (unfold on_modified, bind; rewrite Hp, Hneq; reflexivity).
  repeat split; auto. destruct ev; simpl; assumption.
Qed.

Lemma unrelated_event_ignored_witness :
  let m := snd (construct sample_pickle (Some (lit "/tmp/x/Foo.bar")) empty_world) in
  dispatch (Deleted (lit "/tmp/x/Other.bar")) m = (Ok tt, m).
Proof.
  intros m.
  apply (proj1 (unrelated_event_ignored (Deleted (lit "/tmp/x/Other.bar")) m
                  (lit "Foo") (lit ".bar") (lit "/tmp/x") eq_refl eq_refl eq_refl
                  ltac:(discriminate))).
Defined.





(** ** [saveAs] and [open], step by step *)

Section PersistenceRuns.

Variable pickle : Pickle.



End PersistenceRuns.

Lemma initWatchdog_effect (m : Machine) (n e d : str) :
  name (self m) = Some n -> extension (self m) = Some e -> directory (self m) = Some d ->
  let m' := snd (_initWatchdog m) in
  fst (_initWatchdog m) = Ok tt
  /\ name (self m') = Some n /\ extension (self m') = Some e /\ directory (self m') = Some d
  /\ unsavedChanges (self m') = unsavedChanges (self m)
  /\ data (self m') = data (self m)
  /\ files (world m') = files (world m)
  /\ writable (world m') = writable (world m)
  /\ io_log (world m') = io_log (world m)
  /\ watchdog (self m') = Some (List.length (observers (world m)))
  /\ List.length (observers (world m')) = S (List.length (observers (world m))).
Proof.
  intros Hn He Hd m'. subst m'.
  rewrite (initWatchdog_complete m n e d Hn He Hd).
  cbn [fst snd self world]. repeat split; try assumption.
  cbn. now rewrite !length_map.
Qed.

Section PersistenceFacts.

Variable pickle : Pickle.







End PersistenceFacts.






Section OpenAndConstruct.

Variable pickle : Pickle.





End OpenAndConstruct.




(** ** The exceptions the operations raise *)

Lemma raises_ret {A} (allowed : exn -> bool) (a : A) : raises_only allowed (ret a).
Proof. intros m e H. discriminate H. Qed.

Lemma raises_raise {A} (allowed : exn -> bool) (e : exn) :
  allowed e = true -> raises_only allowed (@raise A e).
Proof. intros He m e' H. injection H as <-. exact He. Qed.

Lemma raises_bind {A B} (allowed : exn -> bool) (c : M A) (k : A -> M B) :
  raises_only allowed c -> (forall a, raises_only allowed (k a)) ->
  raises_only allowed (bind c k).
Proof.
  intros Hc Hk m e H. unfold bind in H.
  destruct (c m) as [[a|e'] m'] eqn:E.
  - exact (Hk a m' e H).
  - simpl in H. injection H as <-. apply (Hc m). now rewrite E.
Qed.

Lemma raises_get_self (allowed : exn -> bool) : raises_only allowed get_self.
Proof. intros m e H. discriminate H. Qed.

Lemma raises_get_world (allowed : exn -> bool) : raises_only allowed get_world.
Proof. intros m e H. discriminate H. Qed.

Lemma raises_setattr (allowed : exn -> bool) (upd : FileBase -> FileBase) :
  raises_only allowed (setattr upd).
Proof. intros m e H. discriminate H. Qed.

Section Exceptions.

Variable pickle : Pickle.
Variable allowed : exn -> bool.

(** The exceptions of the interpreter, the filesystem and the pickler are
    allowed. *)
Hypothesis A_arity : forall f takes given, allowed (TypeError_arity f takes given) = true.
Hypothesis A_operand : forall o, allowed (TypeError_operand o) = true.
Hypothesis A_name : forall x, allowed (NameError x) = true.
Hypothesis A_attribute : forall x, allowed (AttributeError x) = true.
Hypothesis A_io : forall p, allowed (IOError p) = true.
Hypothesis A_pickling : allowed PicklingError = true.
Hypothesis A_unpickling : allowed UnpicklingError = true.

(** However it is called, [_throwNotEnoughInfo] stops on its argument count
    or on the name [self], never at its own [raise]. *)
Lemma raises_throwNotEnoughInfo (args : list pyval) :
  raises_only allowed (call _throwNotEnoughInfo args).
Proof.
  unfold call. simpl params. simpl func_name.
  destruct args as [|v [|v' args]]; simpl Nat.eqb; cbv iota.
  - now apply raises_raise.
  - intros m e H. unfold body, _throwNotEnoughInfo, bind, load_object in H.
    simpl in H. injection H as <-. apply A_name.
  - now apply raises_raise.
Qed.

Lemma raises_initWatchdog : raises_only allowed _initWatchdog.
Proof.
  intros m e H. destruct (identity_set (self m)) eqn:Hid.
  - destruct (identity_set_inv _ Hid) as (n & x & d & Hn & He & Hd).
    rewrite (initWatchdog_complete m n x d Hn He Hd) in H. discriminate H.
  - rewrite (initWatchdog_incomplete m Hid) in H. injection H as <-. apply A_arity.
Qed.

Lemma raises_getInfoFromPath (path : str) : raises_only allowed (_getInfoFromPath path).
Proof. intros m e H. discriminate H. Qed.

Lemma raises_updateFileLocation (path : str) :
  raises_only allowed (_updateFileLocation path).
Proof.
  unfold _updateFileLocation. apply raises_bind;
    [apply raises_getInfoFromPath | intros _; apply raises_initWatchdog].
Qed.

Lemma raises_getAbsolutePath : raises_only allowed getAbsolutePath.
Proof.
  unfold getAbsolutePath. apply raises_bind; [apply raises_get_self|]. intros h.
  destruct (name h), (extension h), (directory h);
    try (now apply raises_raise); try apply raises_ret.
  destruct (Str.startswith _ _); [apply raises_ret | now apply raises_raise].
Qed.

Lemma raises_open_wb (path : str) : raises_only allowed (open_wb path).
Proof.
  intros m e. unfold open_wb, bind, get_world, set_world. cbn.
  destruct (writable (world m) path); cbn; intros H; [discriminate H|].
  injection H as <-. apply A_io.
Qed.

Lemma raises_open_rb_read (path : str) : raises_only allowed (open_rb_read path).
Proof.
  intros m e. unfold open_rb_read, bind, get_world, set_world. cbn.
  destruct (files (world m) path); cbn.
  - destruct (writable (world m) path); cbn; intros H; [discriminate H|].
    injection H as <-. apply A_io.
  - intros H. injection H as <-. apply A_io.
Qed.

Lemma raises_file_write (path : str) (b : bytes) : raises_only allowed (file_write path b).
Proof. intros m e H. discriminate H. Qed.

Lemma raises_os_path_exists (path : str) : raises_only allowed (os_path_exists path).
Proof. intros m e H. discriminate H. Qed.

Lemma raises_save : raises_only allowed (save pickle).
Proof.
  unfold save. apply raises_bind; [apply raises_get_self|]. intros h.
  destruct (identity_set h); [|apply raises_throwNotEnoughInfo].
  apply raises_bind; [apply raises_getAbsolutePath|]. intros p.
  apply raises_bind; [apply raises_open_wb|]. intros _.
  apply raises_bind; [apply raises_get_self|]. intros h'.
  destruct (dump pickle (data h')); [|now apply raises_raise].
  apply raises_bind; [apply raises_file_write | intros _; apply raises_setattr].
Qed.

Lemma raises_saveAs (path : str) : raises_only allowed (saveAs pickle path).
Proof.
  unfold saveAs. apply raises_bind; [apply raises_getInfoFromPath|]. intros _.
  apply raises_bind; [apply raises_save | intros _; apply raises_initWatchdog].
Qed.

Lemma raises_open (path : str) : raises_only allowed (open pickle path).
Proof.
  unfold open. apply raises_bind; [apply raises_getInfoFromPath|]. intros _.
  apply raises_bind; [apply raises_open_rb_read|]. intros b.
  destruct (load pickle b); [|now apply raises_raise].
  apply raises_bind; [apply raises_setattr | intros _; apply raises_initWatchdog].
Qed.

Lemma raises_init (path : option str) : raises_only allowed (__init__ pickle path).
Proof.
  unfold __init__. repeat (apply raises_bind; [apply raises_setattr | intros _]).
  destruct path as [path|]; [|apply raises_ret].
  apply raises_bind; [apply raises_os_path_exists|]. intros [|];
    [apply raises_open | apply raises_saveAs].
Qed.

Lemma raises_on_moved (ev : event) : raises_only allowed (on_moved ev).
Proof.
  unfold on_moved. apply raises_bind; [apply raises_getAbsolutePath|]. intros p.
  destruct (Str.eqb _ p); [|apply raises_ret].
  unfold evt_OnFileMoved. destruct (dest_path ev);
    [apply raises_updateFileLocation | now apply raises_raise].
Qed.

Lemma raises_on_modified (ev : event) : raises_only allowed (on_modified ev).
Proof.
  unfold on_modified. apply raises_bind; [apply raises_getAbsolutePath|]. intros p.
  destruct (Str.eqb _ p); [|apply raises_ret].
  apply raises_updateFileLocation.
Qed.

Lemma raises_on_deleted (ev : event) :
  (forall msg, allowed (FileDeleted msg) = true) ->
  raises_only allowed (on_deleted ev).
Proof.
  intros A_deleted.
  unfold on_deleted. apply raises_bind; [apply raises_getAbsolutePath|]. intros p.
  destruct (Str.eqb _ p); [|apply raises_ret].
  unfold evt_OnFileDeleted. apply raises_bind; [apply raises_get_self|]. intros h.
  destruct (name h), (extension h); now apply raises_raise.
Qed.

(** Every operation but the delivery of a deleted event. *)
Lemma raises_exec (o : op) :
  (forall p, o <> Do_event (Deleted p)) ->
  raises_only allowed (exec pickle o).
Proof.
  intros Ho. destruct o as [|path| |path| |v| |newPath|ev]; simpl.
  - apply raises_bind; [|intros ?; apply raises_ret].
    apply raises_bind; [apply raises_get_self | intros ?; apply raises_ret].
  - apply raises_open.
  - apply raises_save.
  - apply raises_saveAs.
  - apply raises_bind; [apply raises_getAbsolutePath | intros ?; apply raises_ret].
  - intros m e H. discriminate H.
  - apply raises_bind; [|intros ?; apply raises_ret].
    apply raises_bind; [apply raises_get_self | intros ?; apply raises_ret].
  - apply raises_updateFileLocation.
  - unfold deliver. apply raises_bind; [apply raises_get_world|]. intros w.
    destruct (live w); [apply raises_ret|].
    destruct ev as [s d|s|s]; simpl.
    + apply raises_on_moved.
    + exfalso. now apply (Ho s).
    + apply raises_on_modified.
Qed.

Lemma raises_deliver_deleted (p : str) :
  (forall msg, allowed (FileDeleted msg) = true) ->
  raises_only allowed (exec pickle (Do_event (Deleted p))).
Proof.
  intros A_deleted. simpl. unfold deliver.
  apply raises_bind; [apply raises_get_world|]. intros w.
  destruct (live w); [apply raises_ret|]. simpl. now apply raises_on_deleted.
Qed.

End Exceptions.

(** X13. [NotEnoughInfoOnFile] is never raised: whatever the state, no
    operation on a handle and no construction ends with it, since every path
    to its [raise] goes through the call of [_throwNotEnoughInfo], which fails
    first. [FileDeleted] comes from the delivery of a deleted event and from
    nothing else. *)
Theorem declared_exceptions_raised (pickle : Pickle) (e : exn) :
  (forall o m,
     fst (exec pickle o m) = Raise e ->
     (forall msg, e <> NotEnoughInfoOnFile msg)
     /\ (forall msg, e = FileDeleted msg -> exists p, o = Do_event (Deleted p)))
  /\ (forall path w,
        fst (construct pickle path w) = Raise e ->
        (forall msg, e <> NotEnoughInfoOnFile msg) /\ (forall msg, e <> FileDeleted msg)).
Proof.
  assert (Hforeign : foreign_error e = true ->
                     (forall msg, e <> NotEnoughInfoOnFile msg)
                     /\ (forall msg, e <> FileDeleted msg)).
  { intros H. split; intros msg ->; discriminate H. }
  split.
  - intros o m H.
    destruct o as [|path| |path| |v| |newPath|[s d|s|s]];
      try (assert (Hf : foreign_error e = true)
            by (refine (raises_exec pickle foreign_error _ _ _ _ _ _ _ _ _ m e H);
                try reflexivity; intros p; discriminate);
           destruct (Hforeign Hf) as [H1 H2];
           split; [exact H1 | intros msg Hm; exfalso; exact (H2 msg Hm)]).
    assert (Hn : not_NotEnoughInfoOnFile e = true)
      by (refine (raises_deliver_deleted pickle not_NotEnoughInfoOnFile _ _ s _ m e H);
          reflexivity).
    split; [intros msg ->; discriminate Hn | intros msg _; now exists s].
  - intros path w H. apply Hforeign.
    refine (raises_init pickle foreign_error _ _ _ _ _ _ _ path _ e H); reflexivity.
Qed.

Lemma declared_exceptions_raised_witness :
  fst (exec sample_pickle Do_save new_handle)
  = Raise (TypeError_arity "_throwNotEnoughInfo" 1 2)
  /\ TypeError_arity "_throwNotEnoughInfo" 1 2
     <> NotEnoughInfoOnFile (lit "The file name to intialise the save").
Proof.
  split; [reflexivity|].
  apply (proj1 (proj1 (declared_exceptions_raised sample_pickle
                         (TypeError_arity "_throwNotEnoughInfo" 1 2))
                  Do_save new_handle eq_refl)).
Defined.

(** ** The identity is set as a whole *)

Lemma idinv_attr (upd : FileBase -> FileBase) :
  (forall h, name (upd h) = name h /\ extension (upd h) = extension h
             /\ directory (upd h) = directory h) ->
  preserves identity_inv (setattr upd).
Proof.
  intros Hupd m H. destruct (Hupd (self m)) as (Hn & He & Hd).
  unfold identity_inv, identity_unset, derived_from in *. cbn [snd setattr self world].
  rewrite Hn, He, Hd. exact H.
Qed.

Lemma idinv_world (m : Machine) (w : World) :
  observers w = observers (world m) ->
  identity_inv m ->
  identity_inv {| self := self m; world := w; history := history m |}.
Proof. intros E H. unfold identity_inv in *. cbn [self world]. now rewrite E. Qed.

Lemma idinv_getInfoFromPath (path : str) : preserves identity_inv (_getInfoFromPath path).
Proof. intros m _. right. exists path. now repeat split. Qed.

Lemma idinv_initWatchdog : preserves identity_inv _initWatchdog.
Proof.
  intros m H. destruct (identity_set (self m)) eqn:Hid.
  - destruct (identity_set_inv _ Hid) as (n & e & d & Hn & He & Hd).
    destruct (initWatchdog_effect m n e d Hn He Hd) as (_ & Hn' & He' & Hd' & _).
    right. destruct H as [[(Hu & _) _]|(path & Hp)]; [congruence|].
    exists path. unfold derived_from in *. rewrite Hn', He', Hd'.
    destruct Hp as (Pn & Pe & Pd). rewrite <- Hn, <- He, <- Hd. auto.
  - now rewrite initWatchdog_incomplete.
Qed.

Section IdentityInvariant.

Variable pickle : Pickle.

Lemma idinv_updateFileLocation (path : str) :
  preserves identity_inv (_updateFileLocation path).
Proof.
  unfold _updateFileLocation. apply preserves_bind;
    [apply idinv_getInfoFromPath | intros _; apply idinv_initWatchdog].
Qed.

Lemma idinv_save : preserves identity_inv (save pickle).
Proof. apply preserves_save; [apply idinv_world | now apply idinv_attr]. Qed.

Lemma idinv_saveAs (path : str) : preserves identity_inv (saveAs pickle path).
Proof.
  unfold saveAs. apply preserves_bind; [apply idinv_getInfoFromPath|]. intros _.
  apply preserves_bind; [apply idinv_save | intros _; apply idinv_initWatchdog].
Qed.

Lemma idinv_open (path : str) : preserves identity_inv (open pickle path).
Proof.
  unfold open. apply preserves_bind; [apply idinv_getInfoFromPath|]. intros _.
  apply preserves_bind; [apply preserves_open_rb_read, idinv_world|]. intros b.
  destruct (load pickle b); [|apply preserves_raise].
  apply preserves_bind; [now apply idinv_attr | intros _; apply idinv_initWatchdog].
Qed.

Lemma idinv_dispatch (ev : event) : preserves identity_inv (dispatch ev).
Proof.
  destruct ev as [s d|s|s]; simpl;
    unfold on_moved, on_deleted, on_modified;
    (apply preserves_bind; [apply preserves_getAbsolutePath|]); intros p;
    destruct (Str.eqb _ p); try apply preserves_ret.
  - apply idinv_updateFileLocation.
  - unfold evt_OnFileDeleted. apply preserves_bind; [apply preserves_get_self|]. intros h.
    destruct (name h), (extension h); apply preserves_raise.
  - apply idinv_updateFileLocation.
Qed.

Lemma idinv_exec (o : op) : preserves identity_inv (exec pickle o).
Proof.
  destruct o; simpl.
  - apply preserves_bind; [|intros ?; apply preserves_ret].
    apply preserves_bind; [apply preserves_get_self | intros ?; apply preserves_ret].
  - apply idinv_open.
  - apply idinv_save.
  - apply idinv_saveAs.
  - apply preserves_bind; [apply preserves_getAbsolutePath | intros ?; apply preserves_ret].
  - unfold setData, makesChanges, _changesMade.
    apply preserves_bind; [|intros ?]; now apply idinv_attr.
  - apply preserves_bind; [|intros ?; apply preserves_ret].
    apply preserves_bind; [apply preserves_get_self | intros ?; apply preserves_ret].
  - apply idinv_updateFileLocation.
  - unfold deliver. apply preserves_bind; [apply preserves_get_world|]. intros w.
    destruct (live w); [apply preserves_ret | apply idinv_dispatch].
Qed.

Lemma idinv_construct (path : option str) (w : World) :
  observers w = [] -> identity_inv (snd (construct pickle path w)).
Proof.
  intros Hw.
  assert (H0 : forall l, identity_inv {| self := blank; world := w; history := l |}).
  { intros l. left. now repeat split. }
  destruct path as [path|]; [|apply H0].
  rewrite construct_path.
  apply preserves_bind; [| |apply H0].
  - apply preserves_os_path_exists, idinv_world.
  - intros [|]; [apply idinv_open | apply idinv_saveAs].
Qed.

Lemma reachable_identity_inv (m : Machine) : reachable pickle m -> identity_inv m.
Proof.
  induction 1 as [path w Hw|o m _ IH]; [now apply idinv_construct | now apply idinv_exec].
Qed.

End IdentityInvariant.

(** X14. In every reachable state the identity is set as a whole: either
    name, extension and directory are all unset, no observer runs and
    [getAbsolutePath()] raises [TypeError], or the three were derived together
    from one path and [getAbsolutePath()] returns a path. No operation, failed
    ones included, leaves a handle with a part of an identity. *)
Theorem reachable_identity_whole (pickle : Pickle) (m : Machine) :
  reachable pickle m ->
  (identity_unset (self m) /\ live (world m) = []
   /\ getAbsolutePath m = (Raise (TypeError_operand "+"), m))
  \/ (exists path q, derived_from path (self m)
                     /\ getAbsolutePath m = (Ok q, m)
                     /\ fst (roundtrip path m) = Ok q).
Proof.
  intros Hr. destruct (reachable_identity_inv pickle m Hr) as [[(Hn & He & Hd) Ho]|(path & Hp)].
  - left. repeat split; auto.
    + unfold live. now rewrite Ho.
    + unfold getAbsolutePath, bind, get_self. cbv beta iota. now rewrite Hn.
  - right. destruct Hp as (Hn & He & Hd).
    exists path. eexists. split; [now repeat split|]. split.
    + apply (getAbsolutePath_set m _ _ _ Hn He Hd).
    + apply roundtrip_run.
Qed.

Lemma reachable_identity_whole_witness :
  let m := snd (exec sample_pickle (Do_open (lit "/tmp/x/Foo.bar")) new_handle) in
  (identity_unset (self m) /\ live (world m) = []
   /\ getAbsolutePath m = (Raise (TypeError_operand "+"), m))
  \/ (exists path q, derived_from path (self m)
                     /\ getAbsolutePath m = (Ok q, m)
                     /\ fst (roundtrip path m) = Ok q).
Proof.
  intros m.
  apply (reachable_identity_whole sample_pickle m
           (reach_exec sample_pickle (Do_open (lit "/tmp/x/Foo.bar")) new_handle
              (reach_construct sample_pickle None empty_world eq_refl))).
Defined.



(** ** The owned data *)

Section DataKept.

Variable pickle : Pickle.






End DataKept.

